(** * Verification model of the LTEm1c I/O processor and action controller

    Shallow embedding of [src/src/actions.c] (action controller and
    completion parsers) and [src/src/iop.c] (receive control blocks, the
    receive branch of the interrupt handler, command drain), with the C library string functions they rely on. *)

From Stdlib Require Import List Ascii String ZArith Lia Bool Arith PeanoNat.
Import ListNotations.
Open Scope list_scope.

(** ** C string primitives over byte buffers *)
Module CStr.

Definition NUL : ascii := Ascii.zero.
Definition CR : ascii := ascii_of_nat 13.
Definition LF : ascii := ascii_of_nat 10.
Definition lit (s : string) : list ascii := list_ascii_of_string s.
Definition CRLF : list ascii := [CR; LF].

(** Byte [i] of a char array; the arrays of the driver are calloc'ed or
    memset to zero, so reading past the bytes written yields NUL. *)
Definition at_ (b : list ascii) (i : nat) : ascii := nth i b NUL.

(** The C string stored at offset [i]: bytes up to the first NUL. *)
Fixpoint takeStr (b : list ascii) : list ascii :=
  match b with
  | [] => []
  | c :: r => if Ascii.eqb c NUL then [] else c :: takeStr r
  end.

Definition cstr (b : list ascii) (i : nat) : list ascii := takeStr (skipn i b).

Definition strlen (b : list ascii) (i : nat) : nat := List.length (cstr b i).

Definition uchar (c : ascii) : Z := Z.of_nat (nat_of_ascii c).

(** [strncmp a b n]: [a] and [b] are the byte sequences at the two
    pointers (NUL beyond their end). *)
Fixpoint strncmp (a b : list ascii) (n : nat) : Z :=
  match n with
  | 0 => 0%Z
  | S n' =>
      let ca := hd NUL a in
      let cb := hd NUL b in
      if Ascii.eqb ca cb then
        (if Ascii.eqb ca NUL then 0%Z else strncmp (tl a) (tl b) n')
      else (uchar ca - uchar cb)%Z
  end.

(** [memcmp a b n]: exactly [n] bytes, no stop at NUL. *)
Fixpoint memcmp (a b : list ascii) (n : nat) : Z :=
  match n with
  | 0 => 0%Z
  | S n' =>
      let ca := hd NUL a in
      let cb := hd NUL b in
      if Ascii.eqb ca cb then memcmp (tl a) (tl b) n'
      else (uchar ca - uchar cb)%Z
  end.

(** [prefixb p s]: the string [p] is found at the start of [s]. *)
Fixpoint prefixb (p s : list ascii) : bool :=
  match p, s with
  | [], _ => true
  | x :: p', y :: s' => Ascii.eqb x y && prefixb p' s'
  | _ :: _, [] => false
  end.

Fixpoint find_at (rest pat : list ascii) (i : nat) : option nat :=
  if prefixb pat rest then Some i
  else match rest with
       | [] => None
       | _ :: r => find_at r pat (S i)
       end.

(** [strstr (s + i) pat] over the C string [s] (no NUL inside), as an
    index into [s]; [None] is the NULL pointer. *)
Definition strstr (s : list ascii) (i : nat) (pat : list ascii) : option nat :=
  find_at (skipn i s) pat i.

Fixpoint strchr_at (rest : list ascii) (c : ascii) (i : nat) : option nat :=
  match rest with
  | [] => if Ascii.eqb c NUL then Some i else None
  | x :: r => if Ascii.eqb x c then Some i else strchr_at r c (S i)
  end.

(** [strchr (s + i) c] over the C string [s]. *)
Definition strchr (s : list ascii) (i : nat) (c : ascii) : option nat :=
  strchr_at (skipn i s) c i.

Definition isspace (c : ascii) : bool :=
  let n := nat_of_ascii c in (n =? 32) || ((9 <=? n) && (n <=? 13)).

Definition isdigit (c : ascii) : bool :=
  let n := nat_of_ascii c in (48 <=? n) && (n <=? 57).

Fixpoint ws_len (r : list ascii) : nat :=
  match r with
  | c :: r' => if isspace c then S (ws_len r') else 0
  | [] => 0
  end.

Fixpoint digits_of (r : list ascii) : list nat :=
  match r with
  | c :: r' => if isdigit c then (nat_of_ascii c - 48) :: digits_of r' else []
  | [] => []
  end.

(** Decimal value of a digit sequence. *)
Definition digits_value (ds : list nat) : Z :=
  fold_left (fun acc d => (acc * 10 + Z.of_nat d)%Z) ds 0%Z.

(** [long] is 32 bits wide on the microcontrollers the driver targets. *)
Definition LONG_MAX : Z := (2 ^ 31 - 1)%Z.

(** [strtol(b + i, &end, 10)]: value and end offset (the end offset is
    [i] when no digit is converted); out-of-range values saturate. *)
Definition strtol (b : list ascii) (i : nat) : Z * nat :=
  let r := skipn i b in
  let w := ws_len r in
  let r1 := skipn w r in
  let '(neg, sg) :=
    match r1 with
    | c :: _ =>
        if Ascii.eqb c "-"%char then (true, 1)
        else if Ascii.eqb c "+"%char then (false, 1) else (false, 0)
    | [] => (false, 0)
    end in
  let ds := digits_of (skipn sg r1) in
  match ds with
  | [] => (0%Z, i)
  | _ =>
      let v := digits_value ds in
      let v' := if neg then Z.max (- v) (- LONG_MAX - 1) else Z.min v LONG_MAX in
      (v', i + w + sg + List.length ds)
  end.

(** Conversions to the unsigned C integer types. *)
Definition to_u8 (z : Z) : Z := Z.modulo z 256.
Definition to_u16 (z : Z) : Z := Z.modulo z 65536.
Definition to_u32 (z : Z) : Z := Z.modulo z (2 ^ 32).

(** Decimal rendering of a small unsigned value, as [%d] in snprintf. *)
Fixpoint dec_digits (fuel n : nat) (acc : list ascii) : list ascii :=
  match fuel with
  | 0 => acc
  | S f =>
      let acc' := ascii_of_nat (48 + n mod 10) :: acc in
      if n <? 10 then acc' else dec_digits f (n / 10) acc'
  end.

Definition fmt_d (n : nat) : list ascii := dec_digits 4 n [].

(** Overwrite the bytes of [b] from offset [i] with [src] (memory keeps
    its length: bytes past the end of the array are not modelled). *)
Fixpoint write_at (b : list ascii) (i : nat) (src : list ascii) : list ascii :=
  match b with
  | [] => []
  | x :: r =>
      match i with
      | S i' => x :: write_at r i' src
      | 0 => match src with
             | [] => b
             | y :: src' => y :: write_at r 0 src'
             end
      end
  end.

(** [strncpy(b + i, src, n)]: copies up to [n] bytes of the C string
    [src], padding with NUL up to [n]. *)
Definition strncpy (b : list ascii) (i : nat) (src : list ascii) (n : nat) : list ascii :=
  let s := firstn n (takeStr src) in
  write_at b i (s ++ repeat NUL (n - List.length s)).

End CStr.

Import CStr.

(** ** Build configuration

    The driver headers (ltem1c.h, iop.h, actions.h) that define the buffer
    sizes, the owner tags of the receive control blocks, the result codes
    and the MQTT end phrase are not in the source tree; their values are
    parameters of the model, and every theorem holds for all of them under
    the stated side conditions. *)
Record config := mkConfig {
  IOP_RXCTRLBLK_COUNT : nat;
  IOP_RXCTRLBLK_PRIMBUF_SIZE : nat;
  IOP_RXCTRLBLK_PRIMBUF_IRDCAP : nat;
  IOP_URC_STATEMSG_SZ : nat;
  IOP_TX_BUFFER_SZ : nat;
  ACTION_INVOKE_CMDSTR_SZ : nat;
  iopProcess_socketMax : nat;
  iopProcess_command : nat;
  iopProcess_allocated : nat;
  iopProcess_void : nat;
  qbg_readyState_appReady : nat;
  (** MQTT_URC_PREFIXSZ + MQTT_SUBTOPIC_MAXSZ + MQTT_MESSAGE_MAXSZ + 6 *)
  MQTT_EXTBUF_SZ : nat;
  ASCII_sMQTTTERM : list ascii;
  ACTION_RESULT_PENDING : Z;
  ACTION_RESULT_SUCCESS : Z;
  ACTION_RESULT_ERROR : Z;
  ACTION_RESULT_TIMEOUT : Z;
  ACTION_DEFAULT_TIMEOUT_MILLIS : Z
}.

(** ** Outcomes

    [Fault] is [ltem1_faultHandler], which does not return; [Undef] is an
    undefined operation of the C code (a NULL pointer dereference, an
    index outside its array, a write past the end of a heap buffer);
    [Hang] is a loop that never exits. *)
Inductive outcome (A : Type) :=
| Ok : A -> outcome A
| Fault : string -> outcome A
| Undef : outcome A
| Hang : outcome A.
Arguments Ok {A} _.
Arguments Fault {A} _.
Arguments Undef {A}.
Arguments Hang {A}.

(** ** Driver state *)

Inductive iopProtoDataMode := iopProtoDataMode_idle | iopProtoDataMode_irdBytes | iopProtoDataMode_eotPhrase.

Definition pdm_eqb (a b : iopProtoDataMode) : bool :=
  match a, b with
  | iopProtoDataMode_idle, iopProtoDataMode_idle
  | iopProtoDataMode_irdBytes, iopProtoDataMode_irdBytes
  | iopProtoDataMode_eotPhrase, iopProtoDataMode_eotPhrase => true
  | _, _ => false
  end.

(** Heap extension buffer of a control block: the size it was calloc'ed
    with and the offset of [extsnBufTail] from [extsnBufHead]. *)
Record extBuf := mkExt { ext_size : nat; ext_tail : nat }.

Record rxCtrlBlock := mkBlk {
  process : nat;
  primBuf : list ascii;          (** IOP_RXCTRLBLK_PRIMBUF_SIZE + 1 bytes *)
  primDataSz : nat;              (** uint16 *)
  primBufData : nat;             (** offset of [primBufData] in [primBuf] *)
  dataReady : bool;
  extsnBuf : option extBuf;      (** [None]: extsnBufHead == NULL *)
  rmtHostInData : bool
}.

Definition set_process p b := mkBlk p (primBuf b) (primDataSz b) (primBufData b) (dataReady b) (extsnBuf b) (rmtHostInData b).
Definition set_primBuf x b := mkBlk (process b) x (primDataSz b) (primBufData b) (dataReady b) (extsnBuf b) (rmtHostInData b).
Definition set_primDataSz x b := mkBlk (process b) (primBuf b) x (primBufData b) (dataReady b) (extsnBuf b) (rmtHostInData b).
Definition set_primBufData x b := mkBlk (process b) (primBuf b) (primDataSz b) x (dataReady b) (extsnBuf b) (rmtHostInData b).
Definition set_dataReady x b := mkBlk (process b) (primBuf b) (primDataSz b) (primBufData b) x (extsnBuf b) (rmtHostInData b).
Definition set_extsnBuf x b := mkBlk (process b) (primBuf b) (primDataSz b) (primBufData b) (dataReady b) x (rmtHostInData b).
Definition set_rmtHostInData x b := mkBlk (process b) (primBuf b) (primDataSz b) (primBufData b) (dataReady b) (extsnBuf b) x.

(** A completion parser: from the response text (a C string) to a result
    code; a parser call may also dereference NULL or loop forever. *)
Definition parser_t := list ascii -> outcome Z.

Record action_t := mkAction {
  cmdStr : list ascii;           (** ACTION_INVOKE_CMDSTR_SZ bytes; lock when byte 0 <> NUL *)
  cmdBrief : list ascii;
  resultHead : option nat;       (** offset in the caller's response buffer, or NULL *)
  resultTail : nat;
  resultSz : Z;                  (** uint16 *)
  resultCode : Z;
  invokedAt : Z;
  timeoutMillis : Z;
  cmdCompleteParser : option parser_t;
  irdPending : nat
}.

Record iop_t := mkIop {
  rxCtrlBlks : list rxCtrlBlock; (** IOP_RXCTRLBLK_COUNT blocks *)
  rxHead : nat;
  rxTail : nat;
  cmdHead : nat;
  cmdTail : nat;
  socketHead : nat -> nat;
  socketTail : nat -> nat;
  protoDataMode : iopProtoDataMode;
  protoDataBytes : Z;            (** uint16 *)
  protoDataRxCtrlBlk : nat;
  protoDataSocket : nat;
  protoDataEOTPhrase : list ascii;
  protoDataEOTSz : nat;
  urcStateMsg : list ascii;
  txBuf : list ascii             (** queued bytes of the TX ring, oldest first *)
}.

(** [g_ltem1] together with the caller-owned response buffer that the
    action's result window points into, the millisecond clock and the
    transmit side of the bridge. *)
Record ltem1 := mkLtem {
  action : option action_t;      (** [None]: g_ltem1->action == NULL *)
  iop : iop_t;
  qbgReadyState : nat;
  hasData : nat -> bool;         (** g_ltem1->protocols->sockets[i].hasData *)
  millis : Z;
  respMem : list ascii;
  hwTxEmpty : bool;              (** TXLVL reads SC16IS741A_FIFO_BUFFER_SZ *)
  wire : list ascii              (** bytes written to the bridge *)
}.

Definition set_action x s := mkLtem x (iop s) (qbgReadyState s) (hasData s) (millis s) (respMem s) (hwTxEmpty s) (wire s).
Definition set_iop x s := mkLtem (action s) x (qbgReadyState s) (hasData s) (millis s) (respMem s) (hwTxEmpty s) (wire s).
Definition set_qbgReadyState x s := mkLtem (action s) (iop s) x (hasData s) (millis s) (respMem s) (hwTxEmpty s) (wire s).
Definition set_hasData x s := mkLtem (action s) (iop s) (qbgReadyState s) x (millis s) (respMem s) (hwTxEmpty s) (wire s).
Definition set_millis x s := mkLtem (action s) (iop s) (qbgReadyState s) (hasData s) x (respMem s) (hwTxEmpty s) (wire s).
Definition set_respMem x s := mkLtem (action s) (iop s) (qbgReadyState s) (hasData s) (millis s) x (hwTxEmpty s) (wire s).
Definition set_hwTx e w s := mkLtem (action s) (iop s) (qbgReadyState s) (hasData s) (millis s) (respMem s) e w.

(** Field updates of [iop_t]. *)
Definition upd_blks f i := mkIop (f (rxCtrlBlks i)) (rxHead i) (rxTail i) (cmdHead i) (cmdTail i) (socketHead i) (socketTail i) (protoDataMode i) (protoDataBytes i) (protoDataRxCtrlBlk i) (protoDataSocket i) (protoDataEOTPhrase i) (protoDataEOTSz i) (urcStateMsg i) (txBuf i).
Definition set_rxHead x i := mkIop (rxCtrlBlks i) x (rxTail i) (cmdHead i) (cmdTail i) (socketHead i) (socketTail i) (protoDataMode i) (protoDataBytes i) (protoDataRxCtrlBlk i) (protoDataSocket i) (protoDataEOTPhrase i) (protoDataEOTSz i) (urcStateMsg i) (txBuf i).
Definition set_rxTail x i := mkIop (rxCtrlBlks i) (rxHead i) x (cmdHead i) (cmdTail i) (socketHead i) (socketTail i) (protoDataMode i) (protoDataBytes i) (protoDataRxCtrlBlk i) (protoDataSocket i) (protoDataEOTPhrase i) (protoDataEOTSz i) (urcStateMsg i) (txBuf i).
Definition set_cmdHead x i := mkIop (rxCtrlBlks i) (rxHead i) (rxTail i) x (cmdTail i) (socketHead i) (socketTail i) (protoDataMode i) (protoDataBytes i) (protoDataRxCtrlBlk i) (protoDataSocket i) (protoDataEOTPhrase i) (protoDataEOTSz i) (urcStateMsg i) (txBuf i).
Definition set_cmdTail x i := mkIop (rxCtrlBlks i) (rxHead i) (rxTail i) (cmdHead i) x (socketHead i) (socketTail i) (protoDataMode i) (protoDataBytes i) (protoDataRxCtrlBlk i) (protoDataSocket i) (protoDataEOTPhrase i) (protoDataEOTSz i) (urcStateMsg i) (txBuf i).
Definition set_socketHead x i := mkIop (rxCtrlBlks i) (rxHead i) (rxTail i) (cmdHead i) (cmdTail i) x (socketTail i) (protoDataMode i) (protoDataBytes i) (protoDataRxCtrlBlk i) (protoDataSocket i) (protoDataEOTPhrase i) (protoDataEOTSz i) (urcStateMsg i) (txBuf i).
Definition set_socketTail x i := mkIop (rxCtrlBlks i) (rxHead i) (rxTail i) (cmdHead i) (cmdTail i) (socketHead i) x (protoDataMode i) (protoDataBytes i) (protoDataRxCtrlBlk i) (protoDataSocket i) (protoDataEOTPhrase i) (protoDataEOTSz i) (urcStateMsg i) (txBuf i).
Definition set_protoDataMode x i := mkIop (rxCtrlBlks i) (rxHead i) (rxTail i) (cmdHead i) (cmdTail i) (socketHead i) (socketTail i) x (protoDataBytes i) (protoDataRxCtrlBlk i) (protoDataSocket i) (protoDataEOTPhrase i) (protoDataEOTSz i) (urcStateMsg i) (txBuf i).
Definition set_protoDataBytes x i := mkIop (rxCtrlBlks i) (rxHead i) (rxTail i) (cmdHead i) (cmdTail i) (socketHead i) (socketTail i) (protoDataMode i) x (protoDataRxCtrlBlk i) (protoDataSocket i) (protoDataEOTPhrase i) (protoDataEOTSz i) (urcStateMsg i) (txBuf i).
Definition set_protoDataRxCtrlBlk x i := mkIop (rxCtrlBlks i) (rxHead i) (rxTail i) (cmdHead i) (cmdTail i) (socketHead i) (socketTail i) (protoDataMode i) (protoDataBytes i) x (protoDataSocket i) (protoDataEOTPhrase i) (protoDataEOTSz i) (urcStateMsg i) (txBuf i).
Definition set_protoDataSocket x i := mkIop (rxCtrlBlks i) (rxHead i) (rxTail i) (cmdHead i) (cmdTail i) (socketHead i) (socketTail i) (protoDataMode i) (protoDataBytes i) (protoDataRxCtrlBlk i) x (protoDataEOTPhrase i) (protoDataEOTSz i) (urcStateMsg i) (txBuf i).
Definition set_protoDataEOT p n i := mkIop (rxCtrlBlks i) (rxHead i) (rxTail i) (cmdHead i) (cmdTail i) (socketHead i) (socketTail i) (protoDataMode i) (protoDataBytes i) (protoDataRxCtrlBlk i) (protoDataSocket i) p n (urcStateMsg i) (txBuf i).
Definition set_urcStateMsg x i := mkIop (rxCtrlBlks i) (rxHead i) (rxTail i) (cmdHead i) (cmdTail i) (socketHead i) (socketTail i) (protoDataMode i) (protoDataBytes i) (protoDataRxCtrlBlk i) (protoDataSocket i) (protoDataEOTPhrase i) (protoDataEOTSz i) x (txBuf i).
Definition set_txBuf x i := mkIop (rxCtrlBlks i) (rxHead i) (rxTail i) (cmdHead i) (cmdTail i) (socketHead i) (socketTail i) (protoDataMode i) (protoDataBytes i) (protoDataRxCtrlBlk i) (protoDataSocket i) (protoDataEOTPhrase i) (protoDataEOTSz i) (urcStateMsg i) x.

(** Point update of a function-valued array (socketHead, socketTail, hasData). *)
Definition fupd {A} (f : nat -> A) (k : nat) (v : A) : nat -> A :=
  fun j => if Nat.eqb j k then v else f j.

(** Update of the control block at index [k] ([rxCtrlBlks[k]]). *)
Fixpoint list_upd {A} (l : list A) (k : nat) (f : A -> A) : list A :=
  match l, k with
  | [], _ => []
  | x :: r, 0 => f x :: r
  | x :: r, S k' => x :: list_upd r k' f
  end.

(** The driver monad: state passing over [ltem1] with the outcomes above. *)
Definition M (A : Type) := ltem1 -> outcome (A * ltem1).

Definition ret {A} (a : A) : M A := fun s => Ok (a, s).
Definition bind {A B} (m : M A) (k : A -> M B) : M B :=
  fun s => match m s with
           | Ok (a, s') => k a s'
           | Fault msg => Fault msg
           | Undef => Undef
           | Hang => Hang
           end.
Definition get : M ltem1 := fun s => Ok (s, s).
Definition modify (f : ltem1 -> ltem1) : M unit := fun s => Ok (tt, f s).
Definition fault {A} (msg : string) : M A := fun _ => Fault msg.
Definition undef {A} : M A := fun _ => Undef.

Declare Scope drv_scope.
Notation "x <- m ;; k" := (bind m (fun x => k)) (at level 61, m at next level, right associativity) : drv_scope.
Notation "m ;;; k" := (bind m (fun _ => k)) (at level 61, right associativity) : drv_scope.
Open Scope drv_scope.

Definition modify_iop (f : iop_t -> iop_t) : M unit := modify (fun s => set_iop (f (iop s)) s).
Definition modify_blk (k : nat) (f : rxCtrlBlock -> rxCtrlBlock) : M unit :=
  modify_iop (upd_blks (fun l => list_upd l k f)).

(** [g_ltem1->action->...]: dereference of the action pointer. *)
Definition get_action : M action_t :=
  fun s => match action s with Some a => Ok (a, s) | None => Undef end.
Definition put_action (a : action_t) : M unit := modify (set_action (Some a)).

(** [&g_ltem1->iop->rxCtrlBlks[k]]: out of range is undefined. *)
Definition get_blk (k : nat) : M rxCtrlBlock :=
  fun s => match nth_error (rxCtrlBlks (iop s)) k with
           | Some b => Ok (b, s)
           | None => Undef
           end.

(** ** Completion parsers (actions.c, region completionParsers) *)
Section Parsers.
Variable cfg : config.

Definition OK_COMPLETED_STRING : list ascii := lit "OK" ++ CRLF.
Definition ERROR_COMPLETED_STRING : list ascii := lit "ERROR" ++ CRLF.
Definition FAIL_COMPLETED_STRING : list ascii := lit "FAIL" ++ CRLF.
Definition CME_PREABLE : list ascii := lit "+CME ERROR:".
Definition CME_PREABLE_SZ : nat := 11.

(** [uint8_t landmarkSz = strlen(landmark)] *)
Definition landmarkSz (landmark : list ascii) : nat := List.length landmark mod 256.

(** The loop that finds the last occurrence of the landmark:
    [while (searchPtr != NULL) { landmarkAt = searchPtr;
     searchPtr = strstr(searchPtr + landmarkSz, landmark); }],
    entered with [searchPtr] at the first occurrence. *)
Fixpoint lastLandmark (fuel : nat) (response landmark : list ascii) (searchPtr : nat) : outcome nat :=
  match fuel with
  | 0 => Hang
  | S f =>
      match strstr response (searchPtr + landmarkSz landmark) landmark with
      | None => Ok searchPtr
      | Some q => lastLandmark f response landmark q
      end
  end.

Definition lastLandmarkFuel (response : list ascii) : nat := S (S (List.length response)).

(** [(actionResult_t) strtol(at + CME_PREABLE_SZ, NULL, 10)]; the result
    type is 16 bits wide (the parsers are passed as functions returning
    uint16_t). *)
Definition cmeCode (response : list ascii) (cmeAt : nat) : Z :=
  to_u16 (fst (strtol response (cmeAt + CME_PREABLE_SZ))).

(** Lines 227-260 of [action_gapResultParser], from [searchPtr] on. *)
Definition gapTerminatorRule (response : list ascii) (searchPtr gap : nat)
    (terminator : option (list ascii)) : Z :=
  let gapRule ta :=
    if searchPtr + gap <=? ta then ACTION_RESULT_SUCCESS cfg else ACTION_RESULT_ERROR cfg in
  match terminator with
  | Some t =>
      match strstr response searchPtr t with
      | Some ta => gapRule ta
      | None => ACTION_RESULT_PENDING cfg
      end
  | None =>
      match strstr response searchPtr OK_COMPLETED_STRING with
      | Some ta => gapRule ta
      | None =>
          match strstr response searchPtr CME_PREABLE with
          | Some ca => cmeCode response ca
          | None =>
              match strstr response searchPtr ERROR_COMPLETED_STRING with
              | Some _ => ACTION_RESULT_ERROR cfg
              | None =>
                  match strstr response searchPtr FAIL_COMPLETED_STRING with
                  | Some _ => ACTION_RESULT_ERROR cfg
                  | None => ACTION_RESULT_PENDING cfg
                  end
              end
          end
      end
  end.

(** Lines 207-227 of [action_gapResultParser]: [Ok None] for the early
    [return ACTION_RESULT_PENDING] on a required but absent landmark,
    [Ok (Some searchPtr)] otherwise. *)
Definition gapSearchStart (response : list ascii) (landmark : option (list ascii))
    (landmarkReqd : bool) : outcome (option nat) :=
  match landmark with
  | None => Ok (Some 0)
  | Some lm =>
      match strstr response 0 lm with
      | None => if landmarkReqd then Ok None else Ok (Some 0)
      | Some first =>
          match lastLandmark (lastLandmarkFuel response) response lm first with
          | Ok landmarkAt => Ok (Some (landmarkAt + landmarkSz lm))
          | Fault m => Fault m
          | Undef => Undef
          | Hang => Hang
          end
      end
  end.

(** [action_gapResultParser(response, landmark, landmarkReqd, gap, terminator)];
    [None] for a NULL landmark or terminator. *)
Definition action_gapResultParser (response : list ascii) (landmark : option (list ascii))
    (landmarkReqd : bool) (gap : nat) (terminator : option (list ascii)) : outcome Z :=
  match gapSearchStart response landmark landmarkReqd with
  | Ok None => Ok (ACTION_RESULT_PENDING cfg)
  | Ok (Some searchPtr) => Ok (gapTerminatorRule response searchPtr gap terminator)
  | Fault m => Fault m
  | Undef => Undef
  | Hang => Hang
  end.

(** The delimiter loop of [action_tokenResultParser]:
    [while (delimitersFound < (minTokens - 1) && *next != '\0')
       { next = strchr(next + 1, delim); delimitersFound++; }].
    [next = None] is NULL; reading at [next] beyond the terminating NUL
    of the response is outside the string. *)
Fixpoint delimLoop (fuel : nat) (response : list ascii) (delim : ascii) (need : Z)
    (next : option nat) (delimitersFound : nat) : outcome nat :=
  match fuel with
  | 0 => Hang
  | S f =>
      if (Z.of_nat delimitersFound <? need)%Z then
        match next with
        | None => Undef
        | Some n =>
            if List.length response <? n then Undef
            else if n =? List.length response then Ok delimitersFound
            else delimLoop f response delim need (strchr response (S n) delim)
                   ((delimitersFound + 1) mod 256)
        end
      else Ok delimitersFound
  end.

(** Lines 280-299: [Ok true] when the parser returns Success there. *)
Definition tokenLandmarkCheck (response landmark : list ascii) (delim : ascii) (minTokens : nat) : outcome bool :=
  let need := (Z.of_nat minTokens - 1)%Z in
  match strstr response 0 landmark with
  | None => Ok false
  | Some first =>
      match lastLandmark (lastLandmarkFuel response) response landmark first with
      | Ok landmarkAt =>
          match delimLoop (lastLandmarkFuel response) response delim need
                  (Some (landmarkAt + landmarkSz landmark + 1)) 0 with
          | Ok found => Ok (need <=? Z.of_nat found)%Z
          | Fault m => Fault m
          | Undef => Undef
          | Hang => Hang
          end
      | Fault m => Fault m
      | Undef => Undef
      | Hang => Hang
      end
  end.

(** [action_tokenResultParser(response, landmark, delim, minTokens)] *)
Definition action_tokenResultParser (response landmark : list ascii) (delim : ascii) (minTokens : nat) : outcome Z :=
  match tokenLandmarkCheck response landmark delim minTokens with
  | Ok true => Ok (ACTION_RESULT_SUCCESS cfg)
  | Ok false =>
      match strstr response 0 CME_PREABLE with
      | Some cmeAt => Ok (cmeCode response cmeAt)
      | None => Ok (ACTION_RESULT_PENDING cfg)
      end
  | Fault m => Fault m
  | Undef => Undef
  | Hang => Hang
  end.

(** [action_okResultParser(response)] *)
Definition action_okResultParser : parser_t :=
  fun response => action_gapResultParser response None false 0 None.

End Parsers.

(** A configuration used to run the model on concrete inputs. *)
Definition DQ : ascii := ascii_of_nat 34.

Definition sample_cfg : config :=
  mkConfig 20 64 48 20 256 60 5 9 254 255 3 800 [DQ; CR; LF]
           0 200 500 408 5000.

(** ** The driver: actions.c and iop.c *)
Section Driver.
Variable cfg : config.

(** [timing_yield()] while the action lock is polled: the platform yield
    and the application's yield callback, together with any interrupt
    servicing that happens meanwhile. *)
Variable yield_hook : ltem1 -> ltem1.

(** The [protoDataEOTSz] bytes that precede [primBuf] in the memory layout
    of a control block (read by the end-phrase test of the interrupt
    handler, which compares at [primBuf - protoDataEOTSz]). *)
Variable bytesBeforePrimBuf : rxCtrlBlock -> list ascii.

Definition ACTIONS_RETRY_MAX : nat := 20.
Definition ACTIONS_RETRY_INTERVAL : Z := 50.
Definition SC16IS741A_FIFO_BUFFER_SZ : nat := 64.

Inductive iopXfrResult := iopXfrResult_complete | iopXfrResult_truncated | iopXfrResult_incomplete.

(** *** Platform *)

Definition timing_millis : M Z := s <- get ;; ret (millis s).
Definition timing_delay (ms : Z) : M unit := modify (fun s => set_millis (to_u32 (millis s + ms)) s).
Definition timing_yield : M unit := modify yield_hook.

(** [ip_receiverDoWork()] (protocols/ip.c): its loop only reads each
    socket's protocol field. *)
Definition ip_receiverDoWork : M unit := ret tt.

(** *** TX ring *)

(** Modelled from the spec: [cbuf_push] (the cbuf library is not in the
    source tree), a push onto the bounded circular byte buffer of
    capacity IOP_TX_BUFFER_SZ that fails when the buffer is full. *)
Definition cbuf_push (q : list ascii) (c : ascii) : option (list ascii) :=
  if List.length q <? IOP_TX_BUFFER_SZ cfg then Some (q ++ [c]) else None.

Fixpoint txPut_loop (data q : list ascii) (result : nat) : list ascii * nat :=
  match data with
  | [] => (q, result)
  | c :: r => match cbuf_push q c with
              | Some q' => txPut_loop r q' (S result)
              | None => (q, result)
              end
  end.

(** [txPut(data, dataSz)], [data] being the [dataSz] bytes to queue. *)
Definition txPut (data : list ascii) : M nat :=
  s <- get ;;
  let '(q, n) := txPut_loop data (txBuf (iop s)) 0 in
  modify_iop (set_txBuf q) ;;; ret n.

(** [txTake(data, dataSz)]: the bytes popped. *)
Definition txTake (n : nat) : M (list ascii) :=
  s <- get ;;
  let q := txBuf (iop s) in
  modify_iop (set_txBuf (skipn n q)) ;;; ret (firstn n q).

(** [txSendChunk()]: when the bridge FIFO is empty, move a chunk of the
    ring to it. *)
Definition txSendChunk : M unit :=
  s <- get ;;
  if hwTxEmpty s then
    txData <- txTake SC16IS741A_FIFO_BUFFER_SZ ;;
    match txData with
    | [] => ret tt
    | _ => modify (fun s => set_hwTx false (wire s ++ txData) s)
    end
  else ret tt.

(** [iop_txSend(sendData, sendSz, deferSend)] *)
Definition iop_txSend (sendData : list ascii) (deferSend : bool) : M unit :=
  queuedSz <- txPut sendData ;;
  if queuedSz =? List.length sendData then
    (if deferSend then ret tt else txSendChunk)
  else fault "iop-tx buffer overflow".

(** *** Action controller *)

(** The action struct as returned by [calloc]. *)
Definition calloc_action : action_t :=
  mkAction (repeat NUL (ACTION_INVOKE_CMDSTR_SZ cfg)) [] None 0 0 0 0 0 None 0.

(** [action_reset()] *)
Definition action_reset : M action_t :=
  s <- get ;;
  let a := match action s with Some a => a | None => calloc_action end in
  let a' := mkAction (repeat NUL (ACTION_INVOKE_CMDSTR_SZ cfg)) (cmdBrief a) None 0
              (resultSz a) (ACTION_RESULT_PENDING cfg) 0 (timeoutMillis a)
              (cmdCompleteParser a) (iopProcess_void cfg) in
  put_action a' ;;; ret a'.

(** [g_ltem1->action->cmdStr[0] = c] *)
Definition setCmdStr0 (c : ascii) : M unit :=
  a <- get_action ;;
  put_action (mkAction (write_at (cmdStr a) 0 [c]) (cmdBrief a) (resultHead a) (resultTail a)
                (resultSz a) (resultCode a) (invokedAt a) (timeoutMillis a)
                (cmdCompleteParser a) (irdPending a)).

(** [g_ltem1->action->cmdStr[0] != NULL] *)
Definition actionLocked : M bool :=
  a <- get_action ;; ret (negb (Ascii.eqb (at_ (cmdStr a) 0) NUL)).

(** The retry loop of [tryActionLock]; [Ok true] when the loop exits
    because the lock cleared, [Ok false] for [return false]. *)
Fixpoint retryLoop (fuel retryCnt : nat) : M bool :=
  match fuel with
  | 0 => undef
  | S f =>
      locked <- actionLocked ;;
      if negb locked then ret true
      else
        let retryCnt' := S retryCnt in
        if retryCnt' =? ACTIONS_RETRY_MAX then ret false
        else timing_delay ACTIONS_RETRY_INTERVAL ;;; timing_yield ;;; ip_receiverDoWork ;;;
             retryLoop f retryCnt'
  end.

(** [tryActionLock(cmdStr, retry)] *)
Definition tryActionLock (retry : bool) : M bool :=
  locked <- actionLocked ;;
  if locked then
    (if retry then
       cleared <- retryLoop ACTIONS_RETRY_MAX 0 ;;
       if cleared then setCmdStr0 "*"%char ;;; ret true else ret false
     else ret false)
  else setCmdStr0 "*"%char ;;; ret true.

(** Lines 54-62 of [action_tryInvoke], once the lock is held; the call
    of [iop_txSend] passes no [deferSend] argument, the send is taken as
    immediate. *)
Definition action_sendCommand (cmd : list ascii) : M bool :=
  action_reset ;;;
  a <- get_action ;;
  now <- timing_millis ;;
  let cs := strncpy (cmdStr a) 0 cmd (ACTION_INVOKE_CMDSTR_SZ cfg) in
  let len := strlen cs 0 in
  if ACTION_INVOKE_CMDSTR_SZ cfg <? len + 2 then undef   (* strcat past the array *)
  else
    let cs' := write_at cs len [CR; NUL] in
    put_action (mkAction cs' (cmdBrief a) (resultHead a) (resultTail a) (resultSz a)
                  (resultCode a) now (timeoutMillis a) (cmdCompleteParser a) (irdPending a)) ;;;
    iop_txSend (cstr cs' 0) false ;;;
    ret true.

(** [action_tryInvoke(cmdStr, retry)] *)
Definition action_tryInvoke (cmd : list ascii) (retry : bool) : M bool :=
  ok <- tryActionLock retry ;;
  if negb ok then ret false else action_sendCommand cmd.


(** *** Receive control blocks (iop.c) *)

(** [IOP_RXCTRLBLK_ADVINDEX] *)
Definition IOP_RXCTRLBLK_ADVINDEX (i : nat) : nat :=
  if S i =? IOP_RXCTRLBLK_COUNT cfg then 0 else S i.

(** Modelled from the spec: [IOP_RXCTRLBLK_ISOCCUPIED] (iop.h, not in the
    source tree): a control block is occupied from the moment the
    classifier opens it until it is released, i.e. while its owner tag is
    not free ([iopProcess_void]). *)
Definition IOP_RXCTRLBLK_ISOCCUPIED (k : nat) : M bool :=
  b <- get_blk k ;; ret (negb (process b =? iopProcess_void cfg)).

(** [rxResetCtrlBlock(bufIndx)] *)
Definition rxResetCtrlBlock (k : nat) : M unit :=
  get_blk k ;;;
  modify_blk k (fun b => set_dataReady false (set_extsnBuf None
                  (set_primBuf (repeat NUL (IOP_RXCTRLBLK_PRIMBUF_SIZE cfg + 1))
                     (set_process (iopProcess_void cfg) b)))).

Definition rxCtrlBlkFuel : nat := S (S (IOP_RXCTRLBLK_COUNT cfg)).

(** The loop of [iop_recvDoWork()]. *)
Fixpoint recvDoWork_loop (fuel : nat) : M unit :=
  match fuel with
  | 0 => undef
  | S f =>
      s <- get ;;
      if rxTail (iop s) =? rxHead (iop s) then ret tt
      else
        let t := IOP_RXCTRLBLK_ADVINDEX (rxTail (iop s)) in
        modify_iop (set_rxTail t) ;;;
        b <- get_blk t ;;
        (if dataReady b && (process b <=? iopProcess_socketMax cfg)
         then modify (fun s => set_hasData (fupd (hasData s) (process b) true) s)
         else ret tt) ;;;
        recvDoWork_loop f
  end.

(** [iop_recvDoWork()] *)
Definition iop_recvDoWork : M unit := recvDoWork_loop rxCtrlBlkFuel.

(** The do-while loop of [rxOpenCtrlBlock()]. *)
Fixpoint openCtrlBlock_loop (fuel bufIndx : nat) : M nat :=
  match fuel with
  | 0 => undef
  | S f =>
      s <- get ;;
      let i := IOP_RXCTRLBLK_ADVINDEX bufIndx in
      if i =? rxHead (iop s) then fault "iop-rxOpenCtrlBlock()-no ctrlBlk available"
      else
        occupied <- IOP_RXCTRLBLK_ISOCCUPIED i ;;
        if occupied then openCtrlBlock_loop f i else ret i
  end.

(** [rxOpenCtrlBlock()] *)
Definition rxOpenCtrlBlock : M nat :=
  s <- get ;;
  bufIndx <- openCtrlBlock_loop rxCtrlBlkFuel (rxHead (iop s)) ;;
  modify_blk bufIndx (set_process (iopProcess_allocated cfg)) ;;;
  modify_iop (set_rxHead bufIndx) ;;;
  ret bufIndx.

(** [rxConfigureIrdBuffer(rxCtrlBlk, dataSzAt)] *)
Definition rxConfigureIrdBuffer (k dataSzAt : nat) : M nat :=
  b <- get_blk k ;;
  let '(v, endp) := strtol (primBuf b) dataSzAt in
  let dataLen := Z.to_nat (to_u16 v) in
  modify_blk k (fun b => set_primDataSz dataLen (set_primBufData endp b)) ;;;
  (if IOP_RXCTRLBLK_PRIMBUF_IRDCAP cfg <? dataLen
   then modify_blk k (set_extsnBuf (Some (mkExt dataLen dataLen)))
   else ret tt) ;;;
  ret dataLen.

(** [requestProtoData(socketId)] *)
Definition requestProtoData (socketId : nat) : M unit :=
  modify_iop (set_protoDataSocket socketId) ;;;
  action_tryInvoke (lit "AT+QIRD=" ++ fmt_d socketId) false ;;;
  ret tt.

Definition QIURC_RECV : list ascii := lit "+QIURC: " ++ [DQ] ++ lit "recv".
Definition QSSLURC_RECV : list ascii := lit "+QSSLURC: " ++ [DQ] ++ lit "recv".

(** Data-ready notice of a socket: [strtol] the connection id at
    [connIdAt], request the data, and recycle the notice block. *)
Definition rxRecvNotice (k connIdAt : nat) (b : rxCtrlBlock) : M unit :=
  let socketId := Z.to_nat (to_u8 (fst (strtol (primBuf b) connIdAt))) in
  requestProtoData socketId ;;;
  modify_iop (fun i => set_socketTail (fupd (socketTail i) socketId k) i) ;;;
  rxResetCtrlBlock k.

(** [rxParseExtended(rxIndx)] *)
Definition rxParseExtended (k : nat) : M unit :=
  b <- get_blk k ;;
  let pb := skipn 2 (primBuf b) in
  if (memcmp QIURC_RECV pb 13 =? 0)%Z then rxRecvNotice k 13 b
  else if (memcmp QSSLURC_RECV pb 15 =? 0)%Z then rxRecvNotice k 15 b
  else if (memcmp (lit "+QIURC: ") pb 8 =? 0)%Z then
    s <- get ;;
    if negb (Ascii.eqb (at_ (urcStateMsg (iop s)) 0) NUL)
    then fault "IOP-URC state msg buffer overflow."
    else
      modify_iop (fun i => set_urcStateMsg
                    (strncpy (urcStateMsg i) 0 (skipn 8 (primBuf b)) (IOP_URC_STATEMSG_SZ cfg)) i) ;;;
      modify_blk k (set_process (iopProcess_void cfg))
  else
    s <- get ;;
    if negb (qbgReadyState s =? qbg_readyState_appReady cfg)
       && (memcmp (lit "APP RDY" ++ CRLF) pb 9 =? 0)%Z then
      modify (set_qbgReadyState (qbg_readyState_appReady cfg)) ;;;
      modify_blk k (set_process (iopProcess_void cfg))
    else
      modify_iop (set_cmdHead k) ;;;
      modify_blk k (set_process (iopProcess_command cfg)).

Definition IRDRECV_HDRSZ : nat := 7.
Definition SSLRECV_HDRSZ : nat := 11.
Definition MQTTRECV_HDRSZ : nat := 10.

(** Lines 536-565 of [rxParseImmediate]: a sized-data (+QIRD/+QSSLRECV)
    header; [Ok false] for the early return on a zero byte count. *)
Definition rxParseIrdHeader (k : nat) (b : rxCtrlBlock) : M bool :=
  a <- get_action ;;
  put_action (mkAction (cmdStr a) (write_at (cmdBrief a) 0 [NUL]) (resultHead a) (resultTail a)
                (resultSz a) (resultCode a) (invokedAt a) (timeoutMillis a)
                (cmdCompleteParser a) (irdPending a)) ;;;
  irdBytes <- rxConfigureIrdBuffer k
                ((if Ascii.eqb (at_ (primBuf b) 4) "I"%char then IRDRECV_HDRSZ else SSLRECV_HDRSZ) + 2) ;;
  if irdBytes =? 0 then
    modify_iop (fun i => set_protoDataSocket (iopProcess_void cfg) (set_protoDataMode iopProtoDataMode_idle i)) ;;;
    modify_blk k (set_process (iopProcess_void cfg)) ;;;
    ret false
  else
    b1 <- get_blk k ;;
    s <- get ;;
    let sock := protoDataSocket (iop s) in
    modify_blk k (fun b => set_process sock (set_primBufData (primBufData b1 + 2)
                    (set_rmtHostInData (Ascii.eqb (at_ (primBuf b1) (primBufData b1)) ","%char) b))) ;;;
    (match extsnBuf b1 with
     | None =>
         modify_blk k (set_dataReady true) ;;;
         modify_iop (set_protoDataMode iopProtoDataMode_idle)
     | Some _ =>
         modify_blk k (set_dataReady false) ;;;
         modify_iop (fun i => set_protoDataRxCtrlBlk k (set_protoDataBytes (Z.of_nat irdBytes)
                                (set_protoDataMode iopProtoDataMode_irdBytes i)))
     end) ;;;
    modify_iop (fun i => set_socketHead (fupd (socketHead i) sock k) i) ;;;
    ret true.

(** Lines 572-585 of [rxParseImmediate]: an MQTT subscription message. *)
Definition rxParseMqttHeader (k : nat) : M unit :=
  modify_blk k (fun b => set_dataReady false
                  (set_extsnBuf (Some (mkExt (MQTT_EXTBUF_SZ cfg) (primDataSz b))) b)) ;;;
  modify_iop (fun i => set_protoDataEOT (ASCII_sMQTTTERM cfg) 3
                         (set_protoDataMode iopProtoDataMode_eotPhrase i)) ;;;
  b <- get_blk k ;;
  s <- get ;;
  let eotSz := protoDataEOTSz (iop s) in
  if primDataSz b <? eotSz then undef   (* termTestAt before primBuf *)
  else if negb (strncmp (protoDataEOTPhrase (iop s)) (skipn (primDataSz b - eotSz) (primBuf b)) eotSz =? 0)%Z
  then modify_blk k (set_dataReady true) ;;;
       modify_iop (set_protoDataMode iopProtoDataMode_idle)
  else ret tt.

(** [rxParseImmediate(rxIndx)] *)
Definition rxParseImmediate (k : nat) : M unit :=
  b <- get_blk k ;;
  let pb := skipn 2 (primBuf b) in
  if (strncmp (lit "+QIRD: ") pb IRDRECV_HDRSZ =? 0)%Z
     || (strncmp (lit "+QSSLRECV: ") pb SSLRECV_HDRSZ =? 0)%Z then
    continue <- rxParseIrdHeader k b ;;
    if continue then rxParseExtended k else ret tt
  else if (strncmp (lit "+QMTRECV: ") pb MQTTRECV_HDRSZ =? 0)%Z then
    rxParseMqttHeader k ;;; rxParseExtended k
  else rxParseExtended k.

(** The receive branch of [interruptCallbackISR()] (lines 713-755) for a
    chunk [rx] of [rxLevel] bytes read from the bridge FIFO. *)
Definition isrReceive (rx : list ascii) : M unit :=
  let rxLevel := List.length rx in
  if rxLevel =? 0 then ret tt
  else
    s <- get ;;
    let idle := pdm_eqb (protoDataMode (iop s)) iopProtoDataMode_idle in
    rxIndx <- (if idle then rxOpenCtrlBlock else ret (protoDataRxCtrlBlk (iop s))) ;;
    (if idle then
       get_blk rxIndx ;;;
       modify_blk rxIndx (fun b => set_dataReady true (set_primDataSz rxLevel
                                     (set_primBuf (write_at (primBuf b) 0 rx) b)))
     else
       b <- get_blk rxIndx ;;
       match extsnBuf b with
       | None => undef                                  (* read into NULL *)
       | Some e =>
           if ext_size e <? ext_tail e + rxLevel then undef   (* past the heap buffer *)
           else
             modify_blk rxIndx (set_extsnBuf (Some (mkExt (ext_size e) (ext_tail e + rxLevel)))) ;;;
             s <- get ;;
             if pdm_eqb (protoDataMode (iop s)) iopProtoDataMode_irdBytes then
               let left := to_u16 (protoDataBytes (iop s) - Z.of_nat rxLevel) in
               modify_iop (set_protoDataBytes left) ;;;
               modify_blk rxIndx (set_dataReady (left =? 0)%Z) ;;;
               modify_iop (set_protoDataMode iopProtoDataMode_idle)
             else
               b' <- get_blk rxIndx ;;
               if negb (strncmp (protoDataEOTPhrase (iop s)) (bytesBeforePrimBuf b')
                          (protoDataEOTSz (iop s)) =? 0)%Z
               then modify_blk rxIndx (set_dataReady true) ;;;
                    modify_iop (set_protoDataMode iopProtoDataMode_idle)
               else ret tt
       end) ;;;
    rxParseImmediate rxIndx ;;;
    b <- get_blk rxIndx ;;
    if dataReady b then modify_iop (set_protoDataMode iopProtoDataMode_idle) else ret tt.

(** The do-while loop of [iop_rxGetCmdQueued], copying into [buf] at
    [off] with [recvBufSz] bytes left. *)
Fixpoint cmdQueued_loop (fuel tail : nat) (buf : list ascii) (off : nat) (recvBufSz : nat)
    : M (iopXfrResult * list ascii) :=
  match fuel with
  | 0 => undef
  | S f =>
      occupied <- IOP_RXCTRLBLK_ISOCCUPIED tail ;;
      b <- get_blk tail ;;
      let step :=
        if occupied && (process b =? iopProcess_command cfg) then
          let copySz := Nat.min recvBufSz (primDataSz b) in
          let buf' := strncpy buf off (primBuf b) copySz in
          rxResetCtrlBlock tail ;;;
          ret (0 <? primDataSz b - copySz, (buf', off + copySz, recvBufSz - copySz))
        else ret (false, (buf, off, recvBufSz)) in
      r <- step ;;
      let '(truncated, (buf1, off1, sz1)) := r in
      if truncated then ret (iopXfrResult_truncated, buf1)
      else
        s <- get ;;
        if tail =? cmdHead (iop s) then
          modify_iop (set_cmdTail tail) ;;; ret (iopXfrResult_complete, buf1)
        else
          let tail' := IOP_RXCTRLBLK_ADVINDEX tail in
          if tail' =? cmdTail (iop s) then fault "iop_rxGetCmdQueued()-failed to find cmd data "
          else cmdQueued_loop f tail' buf1 off1 sz1
  end.

(** [iop_rxGetCmdQueued(recvBuf, recvBufSz)], [recvBuf] being offset
    [off] of the caller's buffer [buf]; returns the buffer as written. *)
Definition iop_rxGetCmdQueued (buf : list ascii) (off recvBufSz : nat) : M (iopXfrResult * list ascii) :=
  iop_recvDoWork ;;;
  s <- get ;;
  occupied <- IOP_RXCTRLBLK_ISOCCUPIED (cmdHead (iop s)) ;;
  if negb occupied then ret (iopXfrResult_incomplete, buf)
  else cmdQueued_loop rxCtrlBlkFuel (cmdTail (iop s)) buf off recvBufSz.

(** *** Result polling *)

Definition lift {A} (o : outcome A) : M A :=
  fun s => match o with
           | Ok a => Ok (a, s)
           | Fault m => Fault m
           | Undef => Undef
           | Hang => Hang
           end.

(** [action_getResult(response, responseSz, timeout, customCmdCompleteParser_func, autoClose)];
    [response] is the content of the caller's buffer, adopted as the
    result window on the first call.  The elapsed time is computed in
    the unsigned 32-bit arithmetic of the millisecond clock. *)
Definition action_getResult (response : list ascii) (responseSz timeout : Z)
    (customParser : option parser_t) (autoClose : bool) : M Z :=
  a <- get_action ;;
  (match resultHead a with
   | None =>
       put_action (mkAction (cmdStr a) (cmdBrief a) (Some 0) 0 responseSz (resultCode a) (invokedAt a)
                     (if (timeout =? 0)%Z then ACTION_DEFAULT_TIMEOUT_MILLIS cfg else timeout)
                     (Some (match customParser with
                            | Some p => p
                            | None => action_okResultParser cfg
                            end))
                     (irdPending a)) ;;;
       modify (set_respMem response)
   | Some _ => ret tt
   end) ;;;
  a <- get_action ;;
  s <- get ;;
  r <- iop_rxGetCmdQueued (respMem s) (resultTail a) (Z.to_nat (resultSz a)) ;;
  let '(rxResult, buf) := r in
  modify (set_respMem buf) ;;;
  parserResult <-
    (match rxResult with
     | iopXfrResult_incomplete => ret (ACTION_RESULT_PENDING cfg)
     | _ =>
         let n := strlen buf (resultTail a) mod 256 in
         put_action (mkAction (cmdStr a) (cmdBrief a) (resultHead a) (resultTail a + n)
                       (to_u16 (resultSz a - Z.of_nat n)) (resultCode a) (invokedAt a)
                       (timeoutMillis a) (cmdCompleteParser a) (irdPending a)) ;;;
         match cmdCompleteParser a, resultHead a with
         | Some p, Some h => lift (p (cstr buf h))
         | _, _ => undef
         end
     end) ;;
  if (ACTION_RESULT_SUCCESS cfg <=? parserResult)%Z then
    (if autoClose || negb (parserResult =? ACTION_RESULT_SUCCESS cfg)%Z
     then setCmdStr0 NUL else ret tt) ;;;
    ret parserResult
  else
    now <- timing_millis ;;
    a' <- get_action ;;
    if (timeoutMillis a' <? to_u32 (now - invokedAt a'))%Z then
      setCmdStr0 NUL ;;; ret (ACTION_RESULT_TIMEOUT cfg)
    else ret (ACTION_RESULT_PENDING cfg).

(** [iop_txDataPromptParser(response)] (iop.c): the completion parser
    that waits for the data prompt. *)
Definition iop_txDataPromptParser : parser_t :=
  fun response =>
    match strstr response 0 (lit "> ") with
    | Some _ => Ok (ACTION_RESULT_SUCCESS cfg)
    | None => Ok (ACTION_RESULT_PENDING cfg)
    end.


(** The platform's [yield()], called by [action_awaitResult] between
    polls, together with any interrupt servicing that happens meanwhile. *)
Variable platform_yield : ltem1 -> ltem1.

(** [action_awaitResult(response, responseSz, timeout, customCmdCompleteParser_func, autoClose)]:
    its do-while loop, run for at most [fuel] polls ([Hang] beyond). *)
Fixpoint action_awaitResult (fuel : nat) (response : list ascii) (responseSz timeout : Z)
    (customParser : option parser_t) (autoClose : bool) : M Z :=
  match fuel with
  | 0 => fun _ => Hang
  | S f =>
      actionResult <- action_getResult response responseSz timeout customParser autoClose ;;
      modify platform_yield ;;;
      if (actionResult =? ACTION_RESULT_PENDING cfg)%Z
      then action_awaitResult f response responseSz timeout customParser autoClose
      else ret actionResult
  end.

End Driver.

(** The driver state right after [iop_create] and [action_reset], for
    running the model on concrete inputs. *)
Definition sample_blk (cfg : config) : rxCtrlBlock :=
  mkBlk (iopProcess_void cfg) (repeat NUL (IOP_RXCTRLBLK_PRIMBUF_SIZE cfg + 1)) 0 0 false None false.

Definition sample_state (cfg : config) : ltem1 :=
  mkLtem (Some (mkAction (repeat NUL (ACTION_INVOKE_CMDSTR_SZ cfg)) [NUL] None 0 0
                  (ACTION_RESULT_PENDING cfg) 0 0 None (iopProcess_void cfg)))
         (mkIop (repeat (sample_blk cfg) (IOP_RXCTRLBLK_COUNT cfg)) 0 0 0 0 (fun _ => 0) (fun _ => 0)
                iopProtoDataMode_idle 0 255 (iopProcess_void cfg) [] 0
                (repeat NUL (IOP_URC_STATEMSG_SZ cfg)) [])
         0 (fun _ => false) 0 [] true [].

(** ** Reading aids for the statements *)

(** The actions locked in a driver state: the singleton slot, when its
    command buffer is non-empty. *)
Definition locked_actions (s : ltem1) : list action_t :=
  match action s with
  | Some a => if Ascii.eqb (at_ (cmdStr a) 0) NUL then [] else [a]
  | None => []
  end.

(** The last occurrence of [pat] in [s], read literally: the largest
    position where [pat] starts. *)
Definition last_occurrence (s pat : list ascii) : option nat :=
  fold_left (fun acc i => if prefixb pat (skipn i s) then Some i else acc)
            (seq 0 (S (List.length s))) None.

(** The integer written by a sequence of decimal digits. *)
Definition decimal_value (ds : list ascii) : Z :=
  fold_left (fun acc c => (acc * 10 + (Z.of_nat (nat_of_ascii c) - 48))%Z) ds 0%Z.


(** A sample state whose action is locked by a command in flight. *)
Definition locked_action : action_t :=
  mkAction (write_at (repeat NUL 60) 0 (lit "AT+QIACT?")) [NUL] None 0 0
           (ACTION_RESULT_PENDING sample_cfg) 0 0 None 255.

Definition locked_sample : ltem1 :=
  set_action (Some locked_action) (sample_state sample_cfg).

Definition qping_response : list ascii := lit "+QPING: 565" ++ CRLF.

Definition overlap_response : list ascii := lit "aaaOK" ++ CRLF.

(** ** Proofs *)

Lemma set_action_set_action x y s : set_action x (set_action y s) = set_action x s.
Proof. destruct s; reflexivity. Qed.

(** C3: with the slot locked, [tryInvoke] without retry fails and leaves
    the whole driver state (action slot, TX ring, everything) unchanged;
    there is never more than one locked action. *)
Theorem tryInvoke_locked_no_retry_unchanged (cfg : config) (yh : ltem1 -> ltem1)
    (cmd : list ascii) (s : ltem1) (a : action_t) :
  action s = Some a -> at_ (cmdStr a) 0 <> NUL ->
  List.length (locked_actions s) <= 1 /\ action_tryInvoke cfg yh cmd false s = Ok (false, s).
Proof.
  intros Ha Hl. split.
  - unfold locked_actions. rewrite Ha.
    destruct (Ascii.eqb (at_ (cmdStr a) 0) NUL); simpl; lia.
  - unfold action_tryInvoke, tryActionLock, actionLocked, bind, get_action, ret.
    rewrite Ha.
    destruct (Ascii.eqb (at_ (cmdStr a) 0) NUL) eqn:E.
    + apply Ascii.eqb_eq in E. contradiction.
    + reflexivity.
Qed.

Lemma tryInvoke_locked_no_retry_unchanged_witness :
  action locked_sample = Some (mkAction (write_at (repeat NUL 60) 0 (lit "AT+QIACT?")) [NUL] None 0 0
                                 (ACTION_RESULT_PENDING sample_cfg) 0 0 None 255)
  /\ at_ (write_at (repeat NUL 60) 0 (lit "AT+QIACT?")) 0 <> NUL
  /\ (List.length (locked_actions locked_sample) <= 1
      /\ action_tryInvoke sample_cfg (fun s => s) (lit "AT") false locked_sample = Ok (false, locked_sample)).
Proof.
  split; [reflexivity|]. split; [vm_compute; intro H; discriminate H|].
  apply (tryInvoke_locked_no_retry_unchanged sample_cfg (fun s => s) (lit "AT") locked_sample
           (mkAction (write_at (repeat NUL 60) 0 (lit "AT+QIACT?")) [NUL] None 0 0
              (ACTION_RESULT_PENDING sample_cfg) 0 0 None 255)).
  - reflexivity.
  - vm_compute. intro H; discriminate H.
Defined.



(** C7 (failing input): the token parser counts a failed [strchr] as a
    delimiter found, so it returns Success for two tokens on a response
    with no delimiter after the landmark. *)
Lemma tokenResultParser_success_without_delimiter (cfg : config) :
  action_tokenResultParser cfg qping_response (lit "+QPING: ") ","%char 2
    = Ok (ACTION_RESULT_SUCCESS cfg)
  /\ count_occ ascii_dec (skipn 8 qping_response) ","%char = 0.
Proof. split; reflexivity. Qed.

(** C5 (failing input): for a landmark that overlaps itself, the scan for
    its last occurrence stops at an earlier one.  The last occurrence of
    ["aa"] in ["aaaOK\r\n"] ends at 3 and the terminator starts at 3, a
    gap of 0 below [minGap] = 1, yet the parser returns Success. *)
Lemma gapResultParser_overlapping_landmark (cfg : config) :
  action_gapResultParser cfg overlap_response (Some (lit "aa")) true 1 None
    = Ok (ACTION_RESULT_SUCCESS cfg)
  /\ last_occurrence overlap_response (lit "aa") = Some 1
  /\ strstr overlap_response (1 + 2) OK_COMPLETED_STRING = Some 3.
Proof. split; [|split]; reflexivity. Qed.


(** *** Decimal conversion by [strtol] *)

Lemma isdigit_not_space d : isdigit d = true -> isspace d = false.
Proof.
  unfold isdigit, isspace. intro H.
  apply andb_true_iff in H as [H1 H2].
  apply Nat.leb_le in H1. apply Nat.leb_le in H2.
  apply orb_false_iff. split.
  - apply Nat.eqb_neq. lia.
  - apply andb_false_iff. right. apply Nat.leb_gt. lia.
Qed.

Lemma isdigit_not_sign d :
  isdigit d = true -> Ascii.eqb d "-"%char = false /\ Ascii.eqb d "+"%char = false.
Proof.
  intro H. split; apply Ascii.eqb_neq; intro E; subst d; discriminate H.
Qed.

Lemma ws_len_spaces k d r :
  isdigit d = true -> ws_len (repeat " "%char k ++ d :: r) = k.
Proof.
  intro Hd. induction k as [|k IH]; simpl.
  - rewrite (isdigit_not_space d Hd). reflexivity.
  - rewrite IH. reflexivity.
Qed.

Definition nondigit_head (r : list ascii) : Prop :=
  match r with c :: _ => isdigit c = false | [] => True end.

Lemma digits_of_app ds rest :
  Forall (fun d => isdigit d = true) ds -> nondigit_head rest ->
  digits_of (ds ++ rest) = map (fun c => nat_of_ascii c - 48) ds.
Proof.
  intros Hds Hr. induction Hds as [|d ds Hd _ IH]; simpl.
  - destruct rest as [|c r]; simpl in *; [reflexivity|]. rewrite Hr. reflexivity.
  - rewrite Hd, IH. reflexivity.
Qed.

Lemma digits_value_decimal ds acc :
  Forall (fun d => isdigit d = true) ds ->
  fold_left (fun acc d => (acc * 10 + Z.of_nat d)%Z) (map (fun c => nat_of_ascii c - 48) ds) acc
  = fold_left (fun acc c => (acc * 10 + (Z.of_nat (nat_of_ascii c) - 48))%Z) ds acc.
Proof.
  intro Hds. revert acc. induction Hds as [|d ds Hd _ IH]; intro acc; simpl; [reflexivity|].
  rewrite IH. f_equal.
  unfold isdigit in Hd. apply andb_true_iff in Hd as [H1 _]. apply Nat.leb_le in H1. lia.
Qed.



Lemma skipn_repeat_app {A} (x : A) k (r : list A) : skipn k (repeat x k ++ r) = r.
Proof. induction k; simpl; auto. Qed.

(** [strtol] on spaces followed by a run of digits converts the run. *)
Lemma strtol_digits b i k ds rest :
  Forall (fun d => isdigit d = true) ds -> ds <> [] -> nondigit_head rest ->
  skipn i b = repeat " "%char k ++ ds ++ rest ->
  fst (strtol b i) = Z.min (decimal_value ds) LONG_MAX.
Proof.
  intros Hds Hne Hr Hb. unfold strtol. rewrite Hb.
  destruct ds as [|d ds']; [congruence|].
  pose proof (Forall_inv Hds) as Hd. simpl in Hd.
  change ((d :: ds') ++ rest) with (d :: ds' ++ rest).
  rewrite (ws_len_spaces k d (ds' ++ rest) Hd).
  rewrite skipn_repeat_app. simpl app.
  destruct (isdigit_not_sign d Hd) as [Hm Hp]. rewrite Hm, Hp. simpl skipn.
  pose proof (digits_of_app (d :: ds') rest Hds Hr) as Hdig. simpl app in Hdig.
  rewrite Hdig.
  pose proof (digits_value_decimal (d :: ds') 0%Z Hds) as Hv.
  simpl map in Hv. simpl fold_left in Hv |- *.
  unfold digits_value, decimal_value. simpl fold_left. rewrite Hv.
  reflexivity.
Qed.



Definition cme_response : list ascii :=
  CME_PREABLE ++ lit " 505" ++ CRLF ++ ERROR_COMPLETED_STRING.


(** *** Bounded retry of the action lock *)

(** The lock as [actionLocked] reads it; [None] when no slot is attached. *)
Definition lockedb (s : ltem1) : option bool :=
  match action s with
  | Some a => Some (negb (Ascii.eqb (at_ (cmdStr a) 0) NUL))
  | None => None
  end.

(** One round of the retry loop between two lock reads:
    [lDelay(ACTIONS_RETRY_INTERVAL); ltem1_yield(); ip_receiverDoWork();]. *)
Definition retry_round (yh : ltem1 -> ltem1) (s : ltem1) : ltem1 :=
  yh (set_millis (to_u32 (millis s + ACTIONS_RETRY_INTERVAL)) s).

Fixpoint rounds (yh : ltem1 -> ltem1) (n : nat) (s : ltem1) : ltem1 :=
  match n with
  | 0 => s
  | S n' => rounds yh n' (retry_round yh s)
  end.

Lemma actionLocked_lockedb s b : lockedb s = Some b -> actionLocked s = Ok (b, s).
Proof.
  unfold lockedb, actionLocked, bind, get_action, ret.
  destruct (action s); intro H; inversion H; reflexivity.
Qed.

Lemma bind_ret_true_branch (m : M unit) (k : M bool) s :
  bind (bind m (fun _ => ret true)) (fun ok => if negb ok then ret false else k) s = bind m (fun _ => k) s.
Proof. unfold bind, ret. destruct (m s) as [[[] s']| | |]; reflexivity. Qed.

Lemma retryLoop_step yh f cnt s :
  lockedb s = Some true -> S cnt <> ACTIONS_RETRY_MAX ->
  retryLoop yh (S f) cnt s = retryLoop yh f (S cnt) (retry_round yh s).
Proof.
  intros Hl Hc. simpl. unfold bind at 1. rewrite (actionLocked_lockedb s true Hl). simpl negb.
  simpl negb. cbv iota beta.
  destruct (cnt =? 19) eqn:E.
  - apply Nat.eqb_eq in E. unfold ACTIONS_RETRY_MAX in Hc. lia.
  - reflexivity.
Qed.

Lemma retryLoop_clears yh n : forall f cnt s,
  (forall i, i < n -> lockedb (rounds yh i s) = Some true) ->
  lockedb (rounds yh n s) = Some false ->
  cnt + n < ACTIONS_RETRY_MAX -> n < f ->
  retryLoop yh f cnt s = Ok (true, rounds yh n s).
Proof.
  induction n as [|n IH]; intros f cnt s Hlk Hcl Hc Hf.
  - destruct f as [|f]; [lia|]. simpl in Hcl. simpl. unfold bind at 1.
    rewrite (actionLocked_lockedb s false Hcl). reflexivity.
  - destruct f as [|f]; [lia|].
    rewrite retryLoop_step.
    + apply IH.
      * intros i Hi. apply (Hlk (S i)). lia.
      * exact Hcl.
      * lia.
      * lia.
    + apply (Hlk 0). lia.
    + unfold ACTIONS_RETRY_MAX in *. lia.
Qed.

Lemma retryLoop_exhausts yh m : forall f cnt s,
  (forall i, i <= m -> lockedb (rounds yh i s) = Some true) ->
  cnt + m = ACTIONS_RETRY_MAX - 1 -> m < f ->
  retryLoop yh f cnt s = Ok (false, rounds yh m s).
Proof.
  induction m as [|m IH]; intros f cnt s Hlk Hc Hf.
  - destruct f as [|f]; [lia|]. simpl. unfold bind at 1.
    rewrite (actionLocked_lockedb s true (Hlk 0 (le_n 0))). simpl.
    unfold ACTIONS_RETRY_MAX in *. replace cnt with 19 by lia. reflexivity.
  - destruct f as [|f]; [lia|].
    rewrite retryLoop_step.
    + apply IH.
      * intros i Hi. apply (Hlk (S i)). lia.
      * lia.
      * lia.
    + apply (Hlk 0). lia.
    + unfold ACTIONS_RETRY_MAX in *. lia.
Qed.

(** C10: with the slot locked, [tryInvoke] with retry polls the lock once
    per round (a delay of ACTIONS_RETRY_INTERVAL, the yield and the
    socket-receive servicing between two reads).  If the lock is first
    seen clear after [j] rounds, [j] below ACTIONS_RETRY_MAX, it takes the
    lock and sends the command from that state; if it is never seen clear
    it returns false after ACTIONS_RETRY_MAX reads in the loop and
    ACTIONS_RETRY_MAX - 1 rounds. *)
Theorem tryInvoke_retry_bounded (cfg : config) (yh : ltem1 -> ltem1) (cmd : list ascii) (s : ltem1) :
  lockedb s = Some true ->
  (forall j, 1 <= j < ACTIONS_RETRY_MAX ->
     (forall i, i < j -> lockedb (rounds yh i s) = Some true) ->
     lockedb (rounds yh j s) = Some false ->
     action_tryInvoke cfg yh cmd true s
       = (setCmdStr0 "*"%char ;;; action_sendCommand cfg cmd) (rounds yh j s))
  /\ ((forall i, i < ACTIONS_RETRY_MAX -> lockedb (rounds yh i s) = Some true) ->
      action_tryInvoke cfg yh cmd true s = Ok (false, rounds yh (ACTIONS_RETRY_MAX - 1) s)).
Proof.
  intros Hs. split.
  - intros j Hj Hlk Hcl.
    unfold action_tryInvoke, tryActionLock. unfold bind at 1 2.
    rewrite (actionLocked_lockedb s true Hs).
    cbv beta iota. unfold bind at 1.
    rewrite (retryLoop_clears yh j ACTIONS_RETRY_MAX 0 s Hlk Hcl) by lia.
    exact (bind_ret_true_branch (setCmdStr0 "*"%char) (action_sendCommand cfg cmd) (rounds yh j s)).
  - intros Hlk.
    unfold action_tryInvoke, tryActionLock. unfold bind at 1 2.
    rewrite (actionLocked_lockedb s true Hs).
    cbv beta iota. unfold bind at 1.
    rewrite (retryLoop_exhausts yh (ACTIONS_RETRY_MAX - 1) ACTIONS_RETRY_MAX 0 s).
    + reflexivity.
    + intros i Hi. apply Hlk. unfold ACTIONS_RETRY_MAX in *. lia.
    + reflexivity.
    + unfold ACTIONS_RETRY_MAX. lia.
Qed.

(** A yield during which the command in flight completes and releases the
    lock. *)
Definition release_hook (s : ltem1) : ltem1 :=
  set_action (action (sample_state sample_cfg)) s.

Lemma rounds_id_lockedb i : forall s, lockedb (rounds (fun s => s) i s) = lockedb s.
Proof. induction i as [|i IH]; intro s; simpl; [reflexivity|]. rewrite IH. reflexivity. Qed.

Lemma tryInvoke_retry_bounded_witness :
  lockedb locked_sample = Some true
  /\ (1 <= 1 < ACTIONS_RETRY_MAX
      /\ (forall i, i < 1 -> lockedb (rounds release_hook i locked_sample) = Some true)
      /\ lockedb (rounds release_hook 1 locked_sample) = Some false
      /\ action_tryInvoke sample_cfg release_hook (lit "AT") true locked_sample
         = (setCmdStr0 "*"%char ;;; action_sendCommand sample_cfg (lit "AT")) (rounds release_hook 1 locked_sample))
  /\ ((forall i, i < ACTIONS_RETRY_MAX -> lockedb (rounds (fun s => s) i locked_sample) = Some true)
      /\ action_tryInvoke sample_cfg (fun s => s) (lit "AT") true locked_sample
         = Ok (false, rounds (fun s => s) (ACTIONS_RETRY_MAX - 1) locked_sample)).
Proof.
  assert (Hs : lockedb locked_sample = Some true) by reflexivity.
  assert (Hlk1 : forall i, i < 1 -> lockedb (rounds release_hook i locked_sample) = Some true).
  { intros i Hi. replace i with 0 by lia. reflexivity. }
  assert (Hcl1 : lockedb (rounds release_hook 1 locked_sample) = Some false) by reflexivity.
  assert (Hlk2 : forall i, i < ACTIONS_RETRY_MAX -> lockedb (rounds (fun s => s) i locked_sample) = Some true).
  { intros i _. rewrite rounds_id_lockedb. reflexivity. }
  split; [exact Hs|]. split.
  - split; [unfold ACTIONS_RETRY_MAX; lia|]. split; [exact Hlk1|]. split; [exact Hcl1|].
    destruct (tryInvoke_retry_bounded sample_cfg release_hook (lit "AT") locked_sample Hs) as [H _].
    apply H; [unfold ACTIONS_RETRY_MAX; lia | exact Hlk1 | exact Hcl1].
  - split; [exact Hlk2|].
    destruct (tryInvoke_retry_bounded sample_cfg (fun s => s) (lit "AT") locked_sample Hs) as [_ H].
    apply H. exact Hlk2.
Defined.

(** *** Frame of the receive path on the action slot and the clock *)

(** [m] leaves the action slot and the millisecond clock as they were. *)
Definition preserves {A} (m : M A) : Prop :=
  forall s x s', m s = Ok (x, s') -> action s' = action s /\ millis s' = millis s.

Lemma preserves_ret {A} (a : A) : preserves (ret a).
Proof. intros s x s' H. inversion H. auto. Qed.

Lemma preserves_get : preserves get.
Proof. intros s x s' H. inversion H. auto. Qed.

Lemma preserves_fault {A} m : preserves (@fault A m).
Proof. intros s x s' H. discriminate H. Qed.

Lemma preserves_undef {A} : preserves (@undef A).
Proof. intros s x s' H. discriminate H. Qed.

Lemma preserves_modify f :
  (forall s, action (f s) = action s /\ millis (f s) = millis s) -> preserves (modify f).
Proof. intros Hf s x s' H. inversion H. apply Hf. Qed.

Lemma preserves_bind {A B} (m : M A) (k : A -> M B) :
  preserves m -> (forall a, preserves (k a)) -> preserves (bind m k).
Proof.
  intros Hm Hk s x s' H. unfold bind in H.
  destruct (m s) as [[a s1]| | |] eqn:E; try discriminate H.
  destruct (Hm s a s1 E) as [A1 M1]. destruct (Hk a s1 x s' H) as [A2 M2].
  split; congruence.
Qed.

Lemma preserves_modify_iop f : preserves (modify_iop f).
Proof. apply preserves_modify. intro s. destruct s; simpl; auto. Qed.

Lemma preserves_modify_blk k f : preserves (modify_blk k f).
Proof. apply preserves_modify_iop. Qed.

Lemma preserves_get_blk k : preserves (get_blk k).
Proof.
  intros s x s' H. unfold get_blk in H.
  destruct (nth_error (rxCtrlBlks (iop s)) k); inversion H; auto.
Qed.

Lemma preserves_set_hasData f : preserves (modify (fun s => set_hasData (f s) s)).
Proof. apply preserves_modify. intro s. destruct s; simpl; auto. Qed.

Create HintDb frame.
#[local] Hint Resolve preserves_ret preserves_get preserves_fault preserves_undef
  preserves_modify_iop preserves_modify_blk preserves_get_blk preserves_set_hasData : frame.

Ltac frame_step :=
  match goal with
  | |- preserves (bind _ _) => apply preserves_bind; [| intros ?; cbv beta]
  | |- preserves (if ?b then _ else _) => destruct b
  | |- preserves (let '(_, _) := ?r in _) => destruct r as [? ?]
  | |- preserves (match ?r with pair _ _ => _ end) => destruct r as [? ?]
  | |- _ => solve [auto with frame]
  end.

Ltac frame := repeat frame_step.

Lemma preserves_isoccupied cfg k : preserves (IOP_RXCTRLBLK_ISOCCUPIED cfg k).
Proof. unfold IOP_RXCTRLBLK_ISOCCUPIED. frame. Qed.

Lemma preserves_rxResetCtrlBlock cfg k : preserves (rxResetCtrlBlock cfg k).
Proof. unfold rxResetCtrlBlock. frame. Qed.

#[local] Hint Resolve preserves_isoccupied preserves_rxResetCtrlBlock : frame.

Lemma preserves_recvDoWork_loop cfg fuel : preserves (recvDoWork_loop cfg fuel).
Proof. induction fuel as [|f IH]; simpl; frame. Qed.

Lemma preserves_cmdQueued_loop cfg fuel : forall tail buf off sz,
  preserves (cmdQueued_loop cfg fuel tail buf off sz).
Proof. induction fuel as [|f IH]; intros; simpl; frame. Qed.

#[local] Hint Resolve preserves_recvDoWork_loop preserves_cmdQueued_loop : frame.

Lemma preserves_rxGetCmdQueued cfg buf off sz : preserves (iop_rxGetCmdQueued cfg buf off sz).
Proof. unfold iop_rxGetCmdQueued, iop_recvDoWork. frame. Qed.

(** *** Forward reasoning on runs of the driver monad *)

Lemma bind_ok {A B} (m : M A) (k : A -> M B) s x s' :
  bind m k s = Ok (x, s') -> exists y s1, m s = Ok (y, s1) /\ k y s1 = Ok (x, s').
Proof.
  unfold bind. destruct (m s) as [[y s1]| | |]; intro H; try discriminate H.
  exists y, s1. auto.
Qed.

Lemma ret_ok {A} (a : A) s x s' : ret a s = Ok (x, s') -> x = a /\ s' = s.
Proof. unfold ret. intro H. inversion H. auto. Qed.

Lemma get_ok s x s' : get s = Ok (x, s') -> x = s /\ s' = s.
Proof. unfold get. intro H. inversion H. auto. Qed.

Lemma modify_ok f s x s' : modify f s = Ok (x, s') -> s' = f s.
Proof. unfold modify. intro H. inversion H. auto. Qed.

Lemma get_action_ok s a s' : get_action s = Ok (a, s') -> action s = Some a /\ s' = s.
Proof. unfold get_action. destruct (action s); intro H; inversion H; auto. Qed.

Lemma lift_ok {A} (o : outcome A) s x s' : lift o s = Ok (x, s') -> o = Ok x /\ s' = s.
Proof. unfold lift. destruct o; intro H; inversion H; auto. Qed.

Lemma timing_millis_ok s x s' : timing_millis s = Ok (x, s') -> x = millis s /\ s' = s.
Proof. unfold timing_millis, bind, get, ret. intro H. inversion H. auto. Qed.

Lemma setCmdStr0_NUL_ok s x s' :
  setCmdStr0 NUL s = Ok (x, s') ->
  millis s' = millis s /\ exists a', action s' = Some a' /\ at_ (cmdStr a') 0 = NUL.
Proof.
  unfold setCmdStr0, bind, get_action, put_action, modify.
  destruct (action s) as [a|]; intro H; inversion H; subst. split; [reflexivity|].
  eexists; split; [reflexivity|]. simpl. destruct (cmdStr a); reflexivity.
Qed.

Ltac bind_inv H y s1 E :=
  let H' := fresh "H" in
  destruct (bind_ok _ _ _ _ _ H) as (y & s1 & E & H'); clear H; rename H' into H; cbv beta in H.







(** *** Draining the command queue *)





Lemma set_rxTail_twice x y i : set_rxTail x (set_rxTail y i) = set_rxTail x i.
Proof. destruct i; reflexivity. Qed.




(** *** Reassembly in the receive interrupt *)







(** [s] ends with the bytes [p]. *)
Definition ends_with (s p : list ascii) : bool :=
  if list_eq_dec ascii_dec (skipn (List.length s - List.length p) s) p then true else false.

Definition mqtt_prefix : list ascii :=
  CRLF ++ lit "+QMTRECV: 0,1," ++ [DQ] ++ lit "topic" ++ [DQ] ++ lit "," ++ [DQ].

(** The first chunk of a subscription message, without its end phrase. *)
Definition mqtt_partial : list ascii := mqtt_prefix ++ lit "hel".

(** A subscription message that arrives whole, end phrase included. *)
Definition mqtt_whole : list ascii := mqtt_prefix ++ lit "hello" ++ [DQ; CR; LF].

Definition mqtt_result (rx : list ascii) (yh : ltem1 -> ltem1) (bb : rxCtrlBlock -> list ascii)
    : option (iopProtoDataMode * bool) :=
  match isrReceive sample_cfg yh bb rx (sample_state sample_cfg) with
  | Ok (_, s1) =>
      match nth_error (rxCtrlBlks (iop s1)) 1 with
      | Some b => Some (protoDataMode (iop s1), dataReady b)
      | None => None
      end
  | _ => None
  end.

(** C2 (failing inputs): the end-phrase test of the subscription header
    is inverted.  A first chunk whose tail is not the end phrase leaves
    the slot ready and the mode idle; a message whose tail is the end
    phrase leaves the slot not ready, awaiting the end phrase. *)
Theorem mqtt_end_phrase_test_inverted yh bb :
  ends_with mqtt_partial (ASCII_sMQTTTERM sample_cfg) = false
  /\ mqtt_result mqtt_partial yh bb = Some (iopProtoDataMode_idle, true)
  /\ ends_with mqtt_whole (ASCII_sMQTTTERM sample_cfg) = true
  /\ mqtt_result mqtt_whole yh bb = Some (iopProtoDataMode_eotPhrase, false).
Proof. vm_compute. repeat split; reflexivity. Qed.

(** ** Further properties of the parsers and the driver *)

(** *** Substring search *)

(** The bytes [p] occur somewhere in [s]. *)
Definition occurs (p s : list ascii) : Prop := exists k, prefixb p (skipn k s) = true.

Lemma find_at_hit rest pat i : prefixb pat rest = true -> find_at rest pat i = Some i.
Proof. intro H. destruct rest; simpl; rewrite H; reflexivity. Qed.

Lemma find_at_some rest pat : forall i j, find_at rest pat i = Some j ->
  i <= j /\ prefixb pat (skipn (j - i) rest) = true
  /\ forall k, k < j - i -> prefixb pat (skipn k rest) = false.
Proof.
  induction rest as [|x r IH]; intros i j H; simpl in H.
  - destruct (prefixb pat []) eqn:P; inversion H; subst.
    rewrite Nat.sub_diag. repeat split; auto. intros; lia.
  - destruct (prefixb pat (x :: r)) eqn:P.
    + inversion H; subst. rewrite Nat.sub_diag. repeat split; auto. intros; lia.
    + destruct (IH _ _ H) as (Hle & Hp & Hf).
      replace (j - i) with (S (j - S i)) by lia.
      repeat split; [lia | exact Hp |].
      intros [|k] Hk; [exact P|]. simpl. apply Hf. lia.
Qed.

Lemma find_at_none rest pat : forall i, find_at rest pat i = None ->
  forall k, prefixb pat (skipn k rest) = false.
Proof.
  induction rest as [|x r IH]; intros i H k; simpl in H.
  - destruct (prefixb pat []) eqn:P; [discriminate H|]. destruct k; exact P.
  - destruct (prefixb pat (x :: r)) eqn:P; [discriminate H|].
    destruct k as [|k]; [exact P|]. simpl. exact (IH _ H k).
Qed.

Lemma strstr_some s i p j : strstr s i p = Some j ->
  i <= j /\ prefixb p (skipn j s) = true
  /\ forall k, i <= k < j -> prefixb p (skipn k s) = false.
Proof.
  unfold strstr. intro H. destruct (find_at_some _ _ _ _ H) as (Hle & Hp & Hf).
  rewrite skipn_skipn in Hp. replace (j - i + i) with j in Hp by lia.
  repeat split; auto. intros k Hk. specialize (Hf (k - i) ltac:(lia)).
  rewrite skipn_skipn in Hf. replace (k - i + i) with k in Hf by lia. exact Hf.
Qed.

Lemma strstr_none s i p : strstr s i p = None ->
  forall k, i <= k -> prefixb p (skipn k s) = false.
Proof.
  unfold strstr. intros H k Hk. pose proof (find_at_none _ _ _ H (k - i)) as Hf.
  rewrite skipn_skipn in Hf. replace (k - i + i) with k in Hf by lia. exact Hf.
Qed.

Lemma strstr_found s i p k : i <= k -> prefixb p (skipn k s) = true ->
  exists j, strstr s i p = Some j /\ i <= j <= k.
Proof.
  intros Hk Hp. destruct (strstr s i p) as [j|] eqn:E.
  - destruct (strstr_some _ _ _ _ E) as (Hle & _ & Hf). exists j. split; [reflexivity|].
    split; [exact Hle|]. destruct (Nat.le_gt_cases j k) as [|Hgt]; [assumption|].
    rewrite (Hf k ltac:(lia)) in Hp. discriminate Hp.
  - rewrite (strstr_none _ _ _ E k Hk) in Hp. discriminate Hp.
Qed.

Lemma strstr_first s i p k : i <= k -> prefixb p (skipn k s) = true ->
  (forall j, i <= j < k -> prefixb p (skipn j s) = false) -> strstr s i p = Some k.
Proof.
  intros Hk Hp Hf. destruct (strstr_found s i p k Hk Hp) as (j & E & Hj).
  rewrite E. destruct (Nat.eq_dec j k) as [->|Hne]; [reflexivity|].
  destruct (strstr_some _ _ _ _ E) as (_ & Hpj & _).
  rewrite (Hf j ltac:(lia)) in Hpj. discriminate Hpj.
Qed.

Lemma strstr_absent s i p : ~ occurs p s -> strstr s i p = None.
Proof.
  intro Hn. destruct (strstr s i p) as [j|] eqn:E; [|reflexivity].
  destruct (strstr_some _ _ _ _ E) as (_ & Hp & _). exfalso. apply Hn. exists j. exact Hp.
Qed.

Lemma occurs_of_strstr s i p j : strstr s i p = Some j -> occurs p s.
Proof. intro E. destruct (strstr_some _ _ _ _ E) as (_ & Hp & _). exists j. exact Hp. Qed.

Lemma not_occurs_of_strstr s p : strstr s 0 p = None -> ~ occurs p s.
Proof.
  intros E [k Hk]. rewrite (strstr_none _ _ _ E k (Nat.le_0_l k)) in Hk. discriminate Hk.
Qed.

Lemma prefixb_nonempty_lt p s k : p <> [] -> prefixb p (skipn k s) = true -> k < List.length s.
Proof.
  intros Hp H. destruct (Nat.lt_ge_cases k (List.length s)) as [|Hge]; [assumption|].
  rewrite skipn_all2 in H by exact Hge. destruct p; [congruence | discriminate H].
Qed.

(** *** Completion parsers *)

(** [action_okResultParser] reports Success as soon as ["OK\r\n"] occurs
    anywhere in the response, whatever else the response holds; without
    it and without a fault preamble, it reports Error when ["ERROR\r\n"]
    or ["FAIL\r\n"] occurs, and Pending when none of these occurs. *)
Theorem okResultParser_classification cfg response :
  (occurs OK_COMPLETED_STRING response ->
     action_okResultParser cfg response = Ok (ACTION_RESULT_SUCCESS cfg))
  /\ (~ occurs OK_COMPLETED_STRING response -> ~ occurs CME_PREABLE response ->
      occurs ERROR_COMPLETED_STRING response \/ occurs FAIL_COMPLETED_STRING response ->
      action_okResultParser cfg response = Ok (ACTION_RESULT_ERROR cfg))
  /\ (~ occurs OK_COMPLETED_STRING response -> ~ occurs CME_PREABLE response ->
      ~ occurs ERROR_COMPLETED_STRING response -> ~ occurs FAIL_COMPLETED_STRING response ->
      action_okResultParser cfg response = Ok (ACTION_RESULT_PENDING cfg)).
Proof.
  unfold action_okResultParser, action_gapResultParser, gapSearchStart, gapTerminatorRule.
  split; [|split].
  - intros [k Hk]. destruct (strstr_found response 0 _ k (Nat.le_0_l k) Hk) as (j & -> & _).
    reflexivity.
  - intros Hok Hcme Hef. rewrite (strstr_absent _ 0 _ Hok), (strstr_absent _ 0 _ Hcme).
    destruct (strstr response 0 ERROR_COMPLETED_STRING) eqn:Ee; [reflexivity|].
    destruct Hef as [[k Hk]|[k Hk]].
    + rewrite (strstr_none _ _ _ Ee k (Nat.le_0_l k)) in Hk. discriminate Hk.
    + destruct (strstr_found response 0 _ k (Nat.le_0_l k) Hk) as (j & -> & _). reflexivity.
  - intros Hok Hcme Herr Hfail.
    rewrite (strstr_absent _ 0 _ Hok), (strstr_absent _ 0 _ Hcme),
      (strstr_absent _ 0 _ Herr), (strstr_absent _ 0 _ Hfail).
    reflexivity.
Qed.


Lemma lastLandmark_stuck response landmark fuel : forall p,
  landmarkSz landmark = 0 -> prefixb landmark (skipn p response) = true ->
  lastLandmark fuel response landmark p = Hang.
Proof.
  induction fuel as [|f IH]; intros p Hsz Hp; [reflexivity|].
  simpl. rewrite Hsz, Nat.add_0_r. unfold strstr at 1. rewrite (find_at_hit _ _ p Hp).
  exact (IH p Hsz Hp).
Qed.

(** A landmark whose length is a multiple of 256 (the empty string in
    particular) has [landmarkSz] 0: when it occurs in the response, the
    scan for its last occurrence never advances, and both the gap and the
    token parser loop forever. *)
Theorem landmark_size_zero_hangs cfg response landmark reqd gap terminator delim minTokens :
  landmarkSz landmark = 0 -> occurs landmark response ->
  action_gapResultParser cfg response (Some landmark) reqd gap terminator = Hang
  /\ action_tokenResultParser cfg response landmark delim minTokens = Hang.
Proof.
  intros Hsz [k Hk].
  destruct (strstr_found response 0 _ k (Nat.le_0_l k) Hk) as (j & E & _).
  destruct (strstr_some _ _ _ _ E) as (_ & Hj & _).
  unfold action_gapResultParser, gapSearchStart, action_tokenResultParser, tokenLandmarkCheck.
  rewrite E, (lastLandmark_stuck response landmark _ j Hsz Hj). split; reflexivity.
Qed.

Lemma landmark_size_zero_hangs_witness :
  landmarkSz [] = 0 /\ occurs [] (lit "OK" ++ CRLF)
  /\ (action_gapResultParser sample_cfg (lit "OK" ++ CRLF) (Some []) true 0 None = Hang
      /\ action_tokenResultParser sample_cfg (lit "OK" ++ CRLF) [] ","%char 1 = Hang).
Proof.
  assert (Hsz : landmarkSz [] = 0) by reflexivity.
  assert (Ho : occurs [] (lit "OK" ++ CRLF)) by (exists 0; reflexivity).
  split; [exact Hsz|]. split; [exact Ho|].
  exact (landmark_size_zero_hangs sample_cfg (lit "OK" ++ CRLF) [] true 0 None ","%char 1 Hsz Ho).
Defined.

Lemma landmarkSz_nonempty landmark : 0 < landmarkSz landmark -> landmark <> [].
Proof. intros H E. subst landmark. vm_compute in H. lia. Qed.

Lemma lastLandmark_ok response landmark : 0 < landmarkSz landmark ->
  forall fuel p, p <= List.length response -> List.length response < p + fuel ->
  exists l, lastLandmark fuel response landmark p = Ok l.
Proof.
  intros Hsz. induction fuel as [|f IH]; intros p Hp Hf; [lia|].
  simpl. destruct (strstr response (p + landmarkSz landmark) landmark) as [q|] eqn:E.
  - destruct (strstr_some _ _ _ _ E) as (Hq & Hpq & _).
    pose proof (prefixb_nonempty_lt _ _ _ (landmarkSz_nonempty _ Hsz) Hpq).
    apply IH; lia.
  - exists p. reflexivity.
Qed.

Lemma gapSearchStart_ok response landmark reqd : 0 < landmarkSz landmark ->
  exists r, gapSearchStart response (Some landmark) reqd = Ok r.
Proof.
  intro Hsz. unfold gapSearchStart.
  destruct (strstr response 0 landmark) as [f|] eqn:E.
  - destruct (strstr_some _ _ _ _ E) as (_ & Hf & _).
    pose proof (prefixb_nonempty_lt _ _ _ (landmarkSz_nonempty _ Hsz) Hf).
    destruct (lastLandmark_ok response landmark Hsz (lastLandmarkFuel response) f) as [l ->];
      [lia | unfold lastLandmarkFuel; lia |].
    eexists; reflexivity.
  - destruct reqd; eexists; reflexivity.
Qed.

(** With a landmark whose [landmarkSz] is not 0, the gap parser always
    returns a result: the scan for the last landmark terminates. *)
Theorem gapResultParser_terminates cfg response landmark reqd gap terminator :
  0 < landmarkSz landmark ->
  exists v, action_gapResultParser cfg response (Some landmark) reqd gap terminator = Ok v.
Proof.
  intro Hsz. unfold action_gapResultParser.
  destruct (gapSearchStart_ok response landmark reqd Hsz) as [[sp|] ->]; eexists; reflexivity.
Qed.

Lemma gapResultParser_terminates_witness :
  0 < landmarkSz (lit "aa")
  /\ exists v, action_gapResultParser sample_cfg overlap_response (Some (lit "aa")) true 1 None = Ok v.
Proof.
  assert (H : 0 < landmarkSz (lit "aa")) by (vm_compute; lia).
  split; [exact H|].
  exact (gapResultParser_terminates sample_cfg overlap_response (lit "aa") true 1 None H).
Defined.

(** When the landmark does not occur in the response, the gap parser
    reports Pending if the landmark is required, and otherwise behaves
    as if no landmark had been given; the token parser falls back to the
    fault preamble: the code after the first preamble, or Pending. *)
Theorem absent_landmark cfg response landmark gap terminator delim minTokens :
  ~ occurs landmark response ->
  action_gapResultParser cfg response (Some landmark) true gap terminator = Ok (ACTION_RESULT_PENDING cfg)
  /\ action_gapResultParser cfg response (Some landmark) false gap terminator
     = action_gapResultParser cfg response None false gap terminator
  /\ action_tokenResultParser cfg response landmark delim minTokens
     = match strstr response 0 CME_PREABLE with
       | Some c => Ok (cmeCode response c)
       | None => Ok (ACTION_RESULT_PENDING cfg)
       end.
Proof.
  intro Hn. pose proof (strstr_absent response 0 landmark Hn) as E.
  unfold action_gapResultParser, gapSearchStart, action_tokenResultParser, tokenLandmarkCheck.
  rewrite E. repeat split; reflexivity.
Qed.

Lemma absent_landmark_witness :
  ~ occurs (lit "+QPING: ") cme_response
  /\ (action_gapResultParser sample_cfg cme_response (Some (lit "+QPING: ")) true 0 None
        = Ok (ACTION_RESULT_PENDING sample_cfg)
      /\ action_gapResultParser sample_cfg cme_response (Some (lit "+QPING: ")) false 0 None
         = action_gapResultParser sample_cfg cme_response None false 0 None
      /\ action_tokenResultParser sample_cfg cme_response (lit "+QPING: ") ","%char 2
         = match strstr cme_response 0 CME_PREABLE with
           | Some c => Ok (cmeCode cme_response c)
           | None => Ok (ACTION_RESULT_PENDING sample_cfg)
           end).
Proof.
  assert (H : ~ occurs (lit "+QPING: ") cme_response)
    by (apply not_occurs_of_strstr; vm_compute; reflexivity).
  split; [exact H|].
  exact (absent_landmark sample_cfg cme_response (lit "+QPING: ") 0 None ","%char 2 H).
Defined.

(** With no landmark and an explicit terminator, the gap parser decides
    on the first occurrence of the terminator, at [T]: Success when
    [T] is at least the minimum gap, Error otherwise; when the terminator
    does not occur it reports Pending. *)
Theorem gapResultParser_explicit_terminator cfg response reqd gap terminator :
  (forall T, prefixb terminator (skipn T response) = true ->
     (forall k, k < T -> prefixb terminator (skipn k response) = false) ->
     action_gapResultParser cfg response None reqd gap (Some terminator)
     = Ok (if gap <=? T then ACTION_RESULT_SUCCESS cfg else ACTION_RESULT_ERROR cfg))
  /\ (~ occurs terminator response ->
      action_gapResultParser cfg response None reqd gap (Some terminator) = Ok (ACTION_RESULT_PENDING cfg)).
Proof.
  unfold action_gapResultParser, gapSearchStart, gapTerminatorRule. split.
  - intros T HT Hf. rewrite (strstr_first response 0 terminator T (Nat.le_0_l T) HT).
    + reflexivity.
    + intros j Hj. apply Hf. lia.
  - intro Hn. rewrite (strstr_absent _ 0 _ Hn). reflexivity.
Qed.

(** With at most one token required, the token parser reports Success as
    soon as its landmark (of non-zero [landmarkSz]) occurs. *)
Theorem tokenResultParser_single_token cfg response landmark delim minTokens :
  0 < landmarkSz landmark -> occurs landmark response -> minTokens <= 1 ->
  action_tokenResultParser cfg response landmark delim minTokens = Ok (ACTION_RESULT_SUCCESS cfg).
Proof.
  intros Hsz [k Hk] Hm.
  destruct (strstr_found response 0 _ k (Nat.le_0_l k) Hk) as (f & E & _).
  destruct (strstr_some _ _ _ _ E) as (_ & Hf & _).
  pose proof (prefixb_nonempty_lt _ _ _ (landmarkSz_nonempty _ Hsz) Hf).
  unfold action_tokenResultParser, tokenLandmarkCheck. rewrite E.
  destruct (lastLandmark_ok response landmark Hsz (lastLandmarkFuel response) f) as [l ->];
    [lia | unfold lastLandmarkFuel; lia |].
  unfold lastLandmarkFuel. simpl delimLoop. change (Z.of_nat 0) with 0%Z.
  destruct (0 <? Z.of_nat minTokens - 1)%Z eqn:En; [apply Z.ltb_lt in En; lia|].
  change (Z.of_nat 0) with 0%Z.
  destruct (Z.of_nat minTokens - 1 <=? 0)%Z eqn:Ele; [reflexivity|].
  apply Z.leb_gt in Ele. lia.
Qed.

Lemma tokenResultParser_single_token_witness :
  0 < landmarkSz (lit "+QPING: ") /\ occurs (lit "+QPING: ") qping_response /\ 1 <= 1
  /\ action_tokenResultParser sample_cfg qping_response (lit "+QPING: ") ","%char 1
     = Ok (ACTION_RESULT_SUCCESS sample_cfg).
Proof.
  assert (H1 : 0 < landmarkSz (lit "+QPING: ")) by (vm_compute; lia).
  assert (H2 : occurs (lit "+QPING: ") qping_response) by (exists 0; reflexivity).
  assert (H3 : 1 <= 1) by lia.
  split; [exact H1|]. split; [exact H2|]. split; [exact H3|].
  exact (tokenResultParser_single_token sample_cfg qping_response (lit "+QPING: ") ","%char 1 H1 H2 H3).
Defined.

(** *** Fault codes *)

(** The code after a fault preamble is the value of its digit run taken
    modulo 65536 (the 16-bit result type); a run whose value exceeds
    LONG_MAX saturates in [strtol] and gives 65535. *)
Theorem cmeCode_wraps_and_saturates response c k ds rest :
  Forall (fun d => isdigit d = true) ds -> ds <> [] -> nondigit_head rest ->
  skipn (c + CME_PREABLE_SZ) response = repeat " "%char k ++ ds ++ rest ->
  cmeCode response c
  = if (decimal_value ds <=? LONG_MAX)%Z then (decimal_value ds mod 65536)%Z else 65535%Z.
Proof.
  intros Hds Hne Hr Hb. unfold cmeCode.
  rewrite (strtol_digits response (c + CME_PREABLE_SZ) k ds rest Hds Hne Hr Hb).
  unfold to_u16. destruct (decimal_value ds <=? LONG_MAX)%Z eqn:E.
  - apply Z.leb_le in E. rewrite Z.min_l by exact E. reflexivity.
  - apply Z.leb_gt in E. rewrite Z.min_r by lia. reflexivity.
Qed.

Definition cme_wrap_response : list ascii := CME_PREABLE ++ lit " 65536" ++ CRLF.

Lemma cmeCode_wraps_and_saturates_witness :
  Forall (fun d => isdigit d = true) (lit "65536") /\ lit "65536" <> [] /\ nondigit_head CRLF
  /\ skipn (0 + CME_PREABLE_SZ) cme_wrap_response = repeat " "%char 1 ++ lit "65536" ++ CRLF
  /\ cmeCode cme_wrap_response 0
     = (if (decimal_value (lit "65536") <=? LONG_MAX)%Z then (decimal_value (lit "65536") mod 65536)%Z
        else 65535%Z)
  /\ cmeCode cme_wrap_response 0 = 0%Z.
Proof.
  assert (Hds : Forall (fun d => isdigit d = true) (lit "65536")) by (repeat constructor).
  assert (Hne : lit "65536" <> []) by (simpl; intro H; discriminate H).
  assert (Hr : nondigit_head CRLF) by reflexivity.
  assert (Hb : skipn (0 + CME_PREABLE_SZ) cme_wrap_response = repeat " "%char 1 ++ lit "65536" ++ CRLF)
    by reflexivity.
  split; [exact Hds|]. split; [exact Hne|]. split; [exact Hr|]. split; [exact Hb|].
  split; [exact (cmeCode_wraps_and_saturates cme_wrap_response 0 1 (lit "65536") CRLF Hds Hne Hr Hb)|].
  vm_compute. reflexivity.
Defined.

Lemma ws_len_spaces_stop k x r :
  isspace x = false -> ws_len (repeat " "%char k ++ x :: r) = k.
Proof.
  intro Hx. induction k as [|k IH]; simpl.
  - rewrite Hx. reflexivity.
  - rewrite IH. reflexivity.
Qed.

(** A fault preamble followed (after spaces) by a byte that is neither a
    space, a sign nor a digit decodes to the code 0: [strtol] converts
    nothing. *)
Theorem cmeCode_no_digits response c k x rest :
  skipn (c + CME_PREABLE_SZ) response = repeat " "%char k ++ x :: rest ->
  isspace x = false -> isdigit x = false ->
  Ascii.eqb x "-"%char = false -> Ascii.eqb x "+"%char = false ->
  cmeCode response c = 0%Z.
Proof.
  intros Hb Hs Hd Hm Hp. unfold cmeCode, strtol. rewrite Hb.
  rewrite (ws_len_spaces_stop k x rest Hs), skipn_repeat_app.
  rewrite Hm, Hp. simpl skipn. unfold digits_of. rewrite Hd. reflexivity.
Qed.

Definition cme_nodigit_response : list ascii := CME_PREABLE ++ lit " x" ++ CRLF.

Lemma cmeCode_no_digits_witness :
  skipn (0 + CME_PREABLE_SZ) cme_nodigit_response = repeat " "%char 1 ++ "x"%char :: CRLF
  /\ isspace "x"%char = false /\ isdigit "x"%char = false
  /\ Ascii.eqb "x"%char "-"%char = false /\ Ascii.eqb "x"%char "+"%char = false
  /\ cmeCode cme_nodigit_response 0 = 0%Z.
Proof.
  assert (Hb : skipn (0 + CME_PREABLE_SZ) cme_nodigit_response = repeat " "%char 1 ++ "x"%char :: CRLF)
    by reflexivity.
  assert (Hs : isspace "x"%char = false) by reflexivity.
  assert (Hd : isdigit "x"%char = false) by reflexivity.
  assert (Hm : Ascii.eqb "x"%char "-"%char = false) by reflexivity.
  assert (Hp : Ascii.eqb "x"%char "+"%char = false) by reflexivity.
  repeat (split; [assumption|]).
  exact (cmeCode_no_digits cme_nodigit_response 0 1 "x"%char CRLF Hb Hs Hd Hm Hp).
Defined.

(** *** Receive control block ring *)

(** [IOP_RXCTRLBLK_ADVINDEX] walks the ring: from an index in range,
    [k] advances land on [(i + k) mod IOP_RXCTRLBLK_COUNT], so the index
    stays in range and IOP_RXCTRLBLK_COUNT advances return to [i]. *)
Theorem advindex_iterate cfg i :
  i < IOP_RXCTRLBLK_COUNT cfg ->
  forall k, Nat.iter k (IOP_RXCTRLBLK_ADVINDEX cfg) i = (i + k) mod IOP_RXCTRLBLK_COUNT cfg.
Proof.
  intros Hi k. set (C := IOP_RXCTRLBLK_COUNT cfg) in *.
  assert (Hc : C <> 0) by lia.
  induction k as [|k IH].
  - rewrite Nat.add_0_r, Nat.mod_small by exact Hi. reflexivity.
  - simpl Nat.iter. rewrite IH. unfold IOP_RXCTRLBLK_ADVINDEX. fold C.
    assert (Hm : (i + S k) mod C = S ((i + k) mod C) mod C).
    { rewrite Nat.add_succ_r, <- (Nat.add_1_r (i + k)), <- (Nat.add_1_r ((i + k) mod C)).
      rewrite Nat.Div0.add_mod_idemp_l. reflexivity. }
    rewrite Hm. pose proof (Nat.mod_upper_bound (i + k) C Hc).
    destruct (S ((i + k) mod C) =? C) eqn:E.
    + apply Nat.eqb_eq in E. rewrite E, Nat.Div0.mod_same. reflexivity.
    + apply Nat.eqb_neq in E. rewrite (Nat.mod_small (S ((i + k) mod C)) C) by lia. reflexivity.
Qed.

Lemma advindex_iterate_witness :
  19 < IOP_RXCTRLBLK_COUNT sample_cfg
  /\ Nat.iter 41 (IOP_RXCTRLBLK_ADVINDEX sample_cfg) 19 = (19 + 41) mod IOP_RXCTRLBLK_COUNT sample_cfg.
Proof.
  assert (H : 19 < IOP_RXCTRLBLK_COUNT sample_cfg) by (simpl; lia).
  split; [exact H|]. exact (advindex_iterate sample_cfg 19 H 41).
Defined.

(** *** Invoking a command on a free slot *)

Lemma takeStr_noNUL l : ~ In NUL l -> takeStr l = l.
Proof.
  induction l as [|x r IH]; intro Hn; [reflexivity|]. simpl.
  destruct (Ascii.eqb x NUL) eqn:E.
  - apply Ascii.eqb_eq in E. subst. exfalso. apply Hn. left. reflexivity.
  - rewrite IH; [reflexivity|]. intro H. apply Hn. right. exact H.
Qed.

Lemma takeStr_app_NUL l r : ~ In NUL l -> takeStr (l ++ NUL :: r) = l.
Proof.
  induction l as [|x l' IH]; intro Hn; simpl; [reflexivity|].
  destruct (Ascii.eqb x NUL) eqn:E.
  - apply Ascii.eqb_eq in E. subst. exfalso. apply Hn. left. reflexivity.
  - rewrite IH; [reflexivity|]. intro H. apply Hn. right. exact H.
Qed.

Lemma write_at_full b src : List.length src = List.length b -> write_at b 0 src = src.
Proof.
  revert src. induction b as [|x r IH]; intros [|y src'] H; simpl in *; try discriminate H; auto.
  rewrite IH by lia. reflexivity.
Qed.

Lemma write_at_app x y src : write_at (x ++ y) (List.length x) src = x ++ write_at y 0 src.
Proof.
  induction x as [|c x' IH]; [reflexivity|].
  change ((c :: x') ++ y) with (c :: (x' ++ y)). simpl List.length. cbn [write_at].
  rewrite IH. reflexivity.
Qed.

Lemma strncpy_fits cmd n :
  ~ In NUL cmd -> List.length cmd <= n ->
  strncpy (repeat NUL n) 0 cmd n = cmd ++ repeat NUL (n - List.length cmd).
Proof.
  intros Hn Hl. unfold strncpy. rewrite takeStr_noNUL by exact Hn.
  rewrite firstn_all2 by exact Hl.
  apply write_at_full. rewrite length_app, !repeat_length. lia.
Qed.

Lemma strlen_fits cmd m : ~ In NUL cmd -> 0 < m -> strlen (cmd ++ repeat NUL m) 0 = List.length cmd.
Proof.
  intros Hn Hm. destruct m as [|m]; [lia|]. unfold strlen, cstr. simpl skipn.
  rewrite takeStr_app_NUL by exact Hn. reflexivity.
Qed.

Lemma strcat_CR cmd m : 2 <= m ->
  write_at (cmd ++ repeat NUL m) (List.length cmd) [CR; NUL] = cmd ++ CR :: repeat NUL (m - 1).
Proof.
  intro Hm. rewrite write_at_app. destruct m as [|[|m]]; [lia|lia|].
  replace (S (S m) - 1) with (S m) by lia. simpl. destruct (repeat NUL m); reflexivity.
Qed.

Lemma cstr_CR cmd m : ~ In NUL cmd -> 0 < m -> cstr (cmd ++ CR :: repeat NUL m) 0 = cmd ++ [CR].
Proof.
  intros Hn Hm. destruct m as [|m]; [lia|]. unfold cstr. simpl skipn.
  replace (cmd ++ CR :: NUL :: repeat NUL m) with ((cmd ++ [CR]) ++ NUL :: repeat NUL m)
    by (rewrite <- app_assoc; reflexivity).
  apply takeStr_app_NUL. intro H. apply in_app_or in H as [H|[H|H]].
  - exact (Hn H).
  - discriminate H.
  - exact H.
Qed.

Lemma sendCommand_fits cfg cmd s a :
  action s = Some a -> ~ In NUL cmd -> List.length cmd + 2 <= ACTION_INVOKE_CMDSTR_SZ cfg ->
  action_sendCommand cfg cmd s
  = (iop_txSend cfg (cmd ++ [CR]) false ;;; ret true)
      (set_action (Some (mkAction (cmd ++ CR :: repeat NUL (ACTION_INVOKE_CMDSTR_SZ cfg - List.length cmd - 1))
              (cmdBrief a) None 0 (resultSz a) (ACTION_RESULT_PENDING cfg) (millis s)
              (timeoutMillis a) (cmdCompleteParser a) (iopProcess_void cfg))) s).
Proof.
  intros Ha Hn Hlen.
  cbv [action_sendCommand action_reset get put_action modify get_action timing_millis bind ret].
  rewrite Ha. cbv beta. cbn [action millis set_action cmdStr cmdBrief resultHead resultTail resultSz resultCode
                   invokedAt timeoutMillis cmdCompleteParser irdPending iop qbgReadyState hasData respMem hwTxEmpty wire].
  rewrite (strncpy_fits cmd (ACTION_INVOKE_CMDSTR_SZ cfg) Hn) by lia.
  rewrite strlen_fits by first [exact Hn | lia].
  destruct (ACTION_INVOKE_CMDSTR_SZ cfg <? List.length cmd + 2) eqn:E; [apply Nat.ltb_lt in E; lia|].
  rewrite strcat_CR by lia.
  rewrite cstr_CR by first [exact Hn | lia].
  reflexivity.
Qed.

Lemma tryActionLock_free yh retry s a :
  action s = Some a -> at_ (cmdStr a) 0 = NUL ->
  tryActionLock yh retry s
  = Ok (true, set_action (Some (mkAction (write_at (cmdStr a) 0 ["*"%char]) (cmdBrief a) (resultHead a)
                                 (resultTail a) (resultSz a) (resultCode a) (invokedAt a)
                                 (timeoutMillis a) (cmdCompleteParser a) (irdPending a))) s).
Proof.
  intros Ha Hl.
  cbv [tryActionLock actionLocked setCmdStr0 get_action put_action modify bind ret].
  rewrite Ha, Hl. change (Ascii.eqb NUL NUL) with true. cbv beta iota delta [negb].
  rewrite Ha. reflexivity.
Qed.

(** On a free slot, [action_tryInvoke] (with or without retry) takes the
    lock and, for a command that holds no NUL and leaves room for the
    carriage return and the terminator, resets the slot, stores the
    command followed by CR (NUL-padded), stamps the invocation time, and
    hands exactly the command bytes followed by CR to [iop_txSend]; it
    then returns true (unless the TX ring overflows). *)
Theorem tryInvoke_unlocked_sends cfg yh cmd retry s a :
  action s = Some a -> at_ (cmdStr a) 0 = NUL -> ~ In NUL cmd ->
  List.length cmd + 2 <= ACTION_INVOKE_CMDSTR_SZ cfg ->
  action_tryInvoke cfg yh cmd retry s
  = (iop_txSend cfg (cmd ++ [CR]) false ;;; ret true)
      (set_action (Some (mkAction (cmd ++ CR :: repeat NUL (ACTION_INVOKE_CMDSTR_SZ cfg - List.length cmd - 1))
                          (cmdBrief a) None 0 (resultSz a) (ACTION_RESULT_PENDING cfg) (millis s)
                          (timeoutMillis a) (cmdCompleteParser a) (iopProcess_void cfg))) s).
Proof.
  intros Ha Hl Hn Hlen. unfold action_tryInvoke, bind at 1.
  rewrite (tryActionLock_free yh retry s a Ha Hl). cbv beta iota delta [negb].
  erewrite sendCommand_fits; [| reflexivity | exact Hn | exact Hlen].
  rewrite set_action_set_action. reflexivity.
Qed.

(** The free action slot of [sample_state]. *)
Definition idle_action : action_t :=
  mkAction (repeat NUL (ACTION_INVOKE_CMDSTR_SZ sample_cfg)) [NUL] None 0 0
           (ACTION_RESULT_PENDING sample_cfg) 0 0 None (iopProcess_void sample_cfg).

Lemma tryInvoke_unlocked_sends_witness :
  action (sample_state sample_cfg) = Some idle_action
  /\ at_ (cmdStr idle_action) 0 = NUL /\ ~ In NUL (lit "AT+QPING=1")
  /\ List.length (lit "AT+QPING=1") + 2 <= ACTION_INVOKE_CMDSTR_SZ sample_cfg
  /\ action_tryInvoke sample_cfg (fun s => s) (lit "AT+QPING=1") true (sample_state sample_cfg)
     = (iop_txSend sample_cfg (lit "AT+QPING=1" ++ [CR]) false ;;; ret true)
         (set_action (Some (mkAction (lit "AT+QPING=1" ++ CR :: repeat NUL
                                        (ACTION_INVOKE_CMDSTR_SZ sample_cfg - List.length (lit "AT+QPING=1") - 1))
                              (cmdBrief idle_action) None 0 (resultSz idle_action)
                              (ACTION_RESULT_PENDING sample_cfg) (millis (sample_state sample_cfg))
                              (timeoutMillis idle_action)
                              (cmdCompleteParser idle_action) (iopProcess_void sample_cfg)))
            (sample_state sample_cfg)).
Proof.
  assert (Ha : action (sample_state sample_cfg) = Some idle_action) by reflexivity.
  assert (Hl : at_ (cmdStr idle_action) 0 = NUL) by reflexivity.
  assert (Hn : ~ In NUL (lit "AT+QPING=1")) by (simpl; intuition discriminate).
  assert (Hlen : List.length (lit "AT+QPING=1") + 2 <= ACTION_INVOKE_CMDSTR_SZ sample_cfg) by (simpl; lia).
  repeat (split; [assumption|]).
  exact (tryInvoke_unlocked_sends sample_cfg (fun s => s) (lit "AT+QPING=1") true (sample_state sample_cfg)
           idle_action Ha Hl Hn Hlen).
Defined.

(** *** Polling for the result *)

Lemma getResult_outcome cfg response responseSz timeout customParser autoClose s :
  match action_getResult cfg response responseSz timeout customParser autoClose s with
  | Ok (r, s') =>
      exists a a', action s = Some a /\ action s' = Some a'
      /\ ((r = ACTION_RESULT_PENDING cfg /\ cmdStr a' = cmdStr a)
          \/ (r = ACTION_RESULT_TIMEOUT cfg /\ at_ (cmdStr a') 0 = NUL)
          \/ ((ACTION_RESULT_SUCCESS cfg <= r)%Z
              /\ if autoClose || negb (r =? ACTION_RESULT_SUCCESS cfg)%Z
                 then at_ (cmdStr a') 0 = NUL else cmdStr a' = cmdStr a))
  | _ => True
  end.
Proof.
  destruct (action_getResult cfg response responseSz timeout customParser autoClose s)
    as [[r s']| | |] eqn:H; try exact I.
  unfold action_getResult in H.
  bind_inv H v1 t1 E. apply get_action_ok in E as [Ha ->].
  exists v1.
  bind_inv H v2 t2 E.
  assert (Hs1 : exists a1, action t2 = Some a1 /\ cmdStr a1 = cmdStr v1).
  { destruct (resultHead v1) as [h|] eqn:Hh.
    - apply ret_ok in E as [_ ->]. exists v1. auto.
    - bind_inv E v3 t3 E0. unfold put_action in E0. apply modify_ok in E0. apply modify_ok in E. subst.
      eexists. split; reflexivity. }
  clear E. destruct Hs1 as (a1 & Ha1 & Hc1).
  bind_inv H v4 t4 E. apply get_action_ok in E as [E1 ->]. rewrite Ha1 in E1. injection E1 as <-.
  bind_inv H v5 t5 E. apply get_ok in E as [-> ->].
  bind_inv H v6 t6 E. destruct (preserves_rxGetCmdQueued cfg _ _ _ t2 _ _ E) as [Fa _]. clear E.
  destruct v6 as [rxResult buf]. cbv beta iota in H.
  bind_inv H v7 t7 E. apply modify_ok in E. subst t7.
  bind_inv H v8 t8 E.
  assert (Hpr : exists a2, action t8 = Some a2 /\ cmdStr a2 = cmdStr v1).
  { destruct rxResult.
    1-2: bind_inv E v9 t9 E0; unfold put_action in E0; apply modify_ok in E0; subst t9;
         destruct (cmdCompleteParser a1) as [p|]; [|discriminate E];
         destruct (resultHead a1) as [h|]; [|discriminate E];
         apply lift_ok in E as [_ ->];
         eexists; split; [reflexivity | simpl; congruence].
    apply ret_ok in E as [_ ->]. exists a1. simpl. split; [congruence | exact Hc1]. }
  clear E. destruct Hpr as (a2 & Ha2 & Hc2).
  destruct (ACTION_RESULT_SUCCESS cfg <=? v8)%Z eqn:Hsy.
  - apply Z.leb_le in Hsy. bind_inv H v10 t10 E.
    destruct (autoClose || negb (v8 =? ACTION_RESULT_SUCCESS cfg)%Z) eqn:Hac.
    + apply setCmdStr0_NUL_ok in E as [_ (a' & Ha' & Hn)]. apply ret_ok in H as [-> ->].
      exists a'. split; [exact Ha|]. split; [exact Ha'|]. right; right. rewrite Hac. auto.
    + apply ret_ok in E as [_ ->]. apply ret_ok in H as [-> ->].
      exists a2. split; [exact Ha|]. split; [exact Ha2|]. right; right. rewrite Hac. auto.
  - bind_inv H v10 t10 E. apply timing_millis_ok in E as [-> ->].
    bind_inv H v11 t11 E. apply get_action_ok in E as [E1 ->]. rewrite Ha2 in E1. injection E1 as <-.
    destruct (timeoutMillis a2 <? to_u32 (millis t8 - invokedAt a2))%Z.
    + bind_inv H v12 t12 E. apply ret_ok in H as [-> ->]. apply setCmdStr0_NUL_ok in E as [_ (a' & Ha' & Hn)].
      exists a'. split; [exact Ha|]. split; [exact Ha'|]. right; left. auto.
    + apply ret_ok in H as [-> ->]. exists a2. split; [exact Ha|]. split; [exact Ha2|]. left. auto.
Qed.

(** A call of [action_getResult] that runs to completion returns Pending
    with the command buffer kept, Timeout with the lock released, or a
    parser result of at least Success: then the lock is released when
    [autoClose] is set or the result is not Success itself, and kept
    otherwise.  A parser result below Success other than Pending (a
    small fault code, say) is never returned as such. *)
Theorem getResult_result_and_lock cfg response responseSz timeout customParser autoClose s a :
  action s = Some a ->
  match action_getResult cfg response responseSz timeout customParser autoClose s with
  | Ok (r, s') =>
      exists a', action s' = Some a'
      /\ ((r = ACTION_RESULT_PENDING cfg /\ cmdStr a' = cmdStr a)
          \/ (r = ACTION_RESULT_TIMEOUT cfg /\ at_ (cmdStr a') 0 = NUL)
          \/ ((ACTION_RESULT_SUCCESS cfg <= r)%Z
              /\ if autoClose || negb (r =? ACTION_RESULT_SUCCESS cfg)%Z
                 then at_ (cmdStr a') 0 = NUL else cmdStr a' = cmdStr a))
  | _ => True
  end.
Proof.
  intro Ha.
  pose proof (getResult_outcome cfg response responseSz timeout customParser autoClose s) as G.
  destruct (action_getResult cfg response responseSz timeout customParser autoClose s)
    as [[r s']| | |]; try exact I.
  destruct G as (a0 & a' & Ha0 & Ha' & Hr). rewrite Ha in Ha0. injection Ha0 as <-.
  exists a'. auto.
Qed.

(** A sample state where the slot is locked by a command awaiting the
    data prompt: its result window is already open. *)
Definition prompt_action : action_t :=
  mkAction (write_at (repeat NUL 60) 0 (lit "AT+QISEND=0,5")) [NUL] (Some 0) 0 64
           (ACTION_RESULT_PENDING sample_cfg) 0 5000 (Some (iop_txDataPromptParser sample_cfg)) 255.

Definition prompt_sample : ltem1 := set_action (Some prompt_action) (sample_state sample_cfg).

Lemma getResult_result_and_lock_witness :
  action prompt_sample = Some prompt_action
  /\ match action_getResult sample_cfg [] 64 0 None false prompt_sample with
     | Ok (r, s') =>
         exists a', action s' = Some a'
         /\ ((r = ACTION_RESULT_PENDING sample_cfg /\ cmdStr a' = cmdStr prompt_action)
             \/ (r = ACTION_RESULT_TIMEOUT sample_cfg /\ at_ (cmdStr a') 0 = NUL)
             \/ ((ACTION_RESULT_SUCCESS sample_cfg <= r)%Z
                 /\ if false || negb (r =? ACTION_RESULT_SUCCESS sample_cfg)%Z
                    then at_ (cmdStr a') 0 = NUL else cmdStr a' = cmdStr prompt_action))
     | _ => True
     end.
Proof.
  assert (Ha : action prompt_sample = Some prompt_action) by reflexivity.
  split; [exact Ha|].
  exact (getResult_result_and_lock sample_cfg [] 64 0 None false prompt_sample prompt_action Ha).
Defined.

(** [action_awaitResult] never returns Pending: when it returns, the
    result is Timeout or a parser result of at least Success. *)
Theorem awaitResult_final cfg yh fuel response responseSz timeout customParser autoClose s :
  match action_awaitResult cfg yh fuel response responseSz timeout customParser autoClose s with
  | Ok (r, _) =>
      r <> ACTION_RESULT_PENDING cfg
      /\ (r = ACTION_RESULT_TIMEOUT cfg \/ (ACTION_RESULT_SUCCESS cfg <= r)%Z)
  | _ => True
  end.
Proof.
  revert s. induction fuel as [|f IH]; intro s; [exact I|].
  simpl. unfold bind at 1.
  pose proof (getResult_outcome cfg response responseSz timeout customParser autoClose s) as G.
  destruct (action_getResult cfg response responseSz timeout customParser autoClose s)
    as [[r1 s1]| | |]; try exact I.
  unfold bind, modify. cbv beta iota.
  destruct (r1 =? ACTION_RESULT_PENDING cfg)%Z eqn:Ep; [apply IH|].
  unfold ret. apply Z.eqb_neq in Ep. split; [exact Ep|].
  destruct G as (a0 & a' & _ & _ & [[Hr _]|[[Hr _]|[Hr _]]]); [contradiction | left; exact Hr | right; exact Hr].
Qed.




(** *** Deferred parsing of unsolicited notices *)

Lemma uchar_inj c d : uchar c = uchar d -> c = d.
Proof.
  unfold uchar. intros H. apply Nat2Z.inj in H.
  rewrite <- (ascii_nat_embedding c), <- (ascii_nat_embedding d), H. reflexivity.
Qed.

(** A [memcmp] over the whole length of a NUL-free pattern is zero only
    when the pattern is a prefix of the buffer. *)
Lemma memcmp_zero_prefixb a : forall b,
  ~ In NUL a -> memcmp a b (List.length a) = 0%Z -> prefixb a b = true.
Proof.
  induction a as [|x a IH]; intros b Hn H; [reflexivity|].
  assert (Hx : x <> NUL) by (intro E; apply Hn; left; auto).
  assert (Ha : ~ In NUL a) by (intro E; apply Hn; right; auto).
  destruct b as [|y b]; simpl in H.
  - destruct (Ascii.eqb_spec x NUL); [contradiction|].
    exfalso. apply Hx, uchar_inj. lia.
  - simpl. destruct (Ascii.eqb_spec x y) as [<-|E].
    + apply IH; assumption.
    + exfalso. apply E, uchar_inj. lia.
Qed.

(** A socket data notice never has its connection id read: [strtol]
    starts inside the word "recv" and converts nothing, so the data of
    socket 0 is requested and the notice block is filed as socket 0's
    tail, whatever connection the modem named. *)
Theorem rxParseExtended_recv_notice_socket0 cfg yh k s b x y rest :
  nth_error (rxCtrlBlks (iop s)) k = Some b ->
  (primBuf b = x :: y :: QIURC_RECV ++ rest \/ primBuf b = x :: y :: QSSLURC_RECV ++ rest) ->
  rxParseExtended cfg yh k s
  = (requestProtoData cfg yh 0 ;;;
     modify_iop (fun i => set_socketTail (fupd (socketTail i) 0 k) i) ;;;
     rxResetCtrlBlock cfg k) s.
Proof.
  intros Hb Hp. unfold rxParseExtended, bind at 1, get_blk. rewrite Hb. cbv beta iota.
  destruct Hp as [Hp|Hp].
  - assert (E1 : (memcmp QIURC_RECV (skipn 2 (primBuf b)) 13 =? 0)%Z = true) by (rewrite Hp; reflexivity).
    assert (E2 : strtol (primBuf b) 13 = (0%Z, 13)) by (rewrite Hp; reflexivity).
    rewrite E1. unfold rxRecvNotice. rewrite E2. reflexivity.
  - assert (E1 : (memcmp QIURC_RECV (skipn 2 (primBuf b)) 13 =? 0)%Z = false) by (rewrite Hp; reflexivity).
    assert (E2 : (memcmp QSSLURC_RECV (skipn 2 (primBuf b)) 15 =? 0)%Z = true) by (rewrite Hp; reflexivity).
    assert (E3 : strtol (primBuf b) 15 = (0%Z, 15)) by (rewrite Hp; reflexivity).
    rewrite E1, E2. unfold rxRecvNotice. rewrite E3. reflexivity.
Qed.

(** A state where control block 2 holds the notice that connection 3 has
    data. *)
Definition recv3_sample : ltem1 :=
  set_iop (upd_blks (fun l => list_upd l 2 (set_primBuf (CRLF ++ QIURC_RECV ++ [DQ] ++ lit ",3" ++ CRLF)))
             (iop (sample_state sample_cfg)))
          (sample_state sample_cfg).

Lemma rxParseExtended_recv_notice_socket0_witness :
  exists b, nth_error (rxCtrlBlks (iop recv3_sample)) 2 = Some b
  /\ rxParseExtended sample_cfg (fun s => s) 2 recv3_sample
     = (requestProtoData sample_cfg (fun s => s) 0 ;;;
        modify_iop (fun i => set_socketTail (fupd (socketTail i) 0 2) i) ;;;
        rxResetCtrlBlock sample_cfg 2) recv3_sample.
Proof.
  eexists. split; [vm_compute; reflexivity|].
  eapply (rxParseExtended_recv_notice_socket0 sample_cfg (fun s => s) 2 recv3_sample _ CR LF
           ([DQ] ++ lit ",3" ++ CRLF)).
  - vm_compute. reflexivity.
  - left. vm_compute. reflexivity.
Defined.

(** A state URC (+QIURC: other than a data notice) is copied into the
    single state-message buffer from byte 8 of the block, so the stored
    text starts with the ": " of the header, and the block is released;
    when the buffer still holds a message the driver faults. *)
Theorem rxParseExtended_state_urc cfg yh k s b x y rest :
  nth_error (rxCtrlBlks (iop s)) k = Some b ->
  primBuf b = x :: y :: lit "+QIURC: " ++ rest ->
  prefixb ([DQ] ++ lit "recv") rest = false ->
  rxParseExtended cfg yh k s
  = if Ascii.eqb (at_ (urcStateMsg (iop s)) 0) NUL
    then Ok (tt, set_iop (upd_blks (fun l => list_upd l k (set_process (iopProcess_void cfg)))
                            (set_urcStateMsg (strncpy (urcStateMsg (iop s)) 0 (lit ": " ++ rest)
                                                (IOP_URC_STATEMSG_SZ cfg)) (iop s))) s)
    else Fault "IOP-URC state msg buffer overflow.".
Proof.
  intros Hb Hp Hr. unfold rxParseExtended, bind at 1, get_blk. rewrite Hb. cbv beta iota.
  assert (E1 : (memcmp QIURC_RECV (skipn 2 (primBuf b)) 13 =? 0)%Z = false).
  { apply Z.eqb_neq. intro E. rewrite Hp in E. simpl skipn in E.
    apply memcmp_zero_prefixb in E; [|simpl; intuition discriminate].
    unfold QIURC_RECV in E. simpl in E, Hr. rewrite Hr in E. discriminate. }
  assert (E2 : (memcmp QSSLURC_RECV (skipn 2 (primBuf b)) 15 =? 0)%Z = false) by (rewrite Hp; reflexivity).
  assert (E3 : (memcmp (lit "+QIURC: ") (skipn 2 (primBuf b)) 8 =? 0)%Z = true) by (rewrite Hp; reflexivity).
  assert (E4 : skipn 8 (primBuf b) = lit ": " ++ rest) by (rewrite Hp; reflexivity).
  rewrite E1, E2, E3, E4. unfold bind at 1, get. cbv beta iota.
  destruct (Ascii.eqb (at_ (urcStateMsg (iop s)) 0) NUL); reflexivity.
Qed.

(** A state where control block 2 holds a PDP-deactivation notice. *)
Definition pdpdeact_sample : ltem1 :=
  set_iop (upd_blks (fun l => list_upd l 2 (set_primBuf (CRLF ++ lit "+QIURC: " ++ [DQ] ++ lit "pdpdeact" ++ [DQ] ++ lit ",1" ++ CRLF)))
             (iop (sample_state sample_cfg)))
          (sample_state sample_cfg).

Lemma rxParseExtended_state_urc_witness :
  exists b, nth_error (rxCtrlBlks (iop pdpdeact_sample)) 2 = Some b
  /\ rxParseExtended sample_cfg (fun s => s) 2 pdpdeact_sample
     = if Ascii.eqb (at_ (urcStateMsg (iop pdpdeact_sample)) 0) NUL
       then Ok (tt, set_iop (upd_blks (fun l => list_upd l 2 (set_process (iopProcess_void sample_cfg)))
                   (set_urcStateMsg (strncpy (urcStateMsg (iop pdpdeact_sample)) 0
                                       (lit ": " ++ [DQ] ++ lit "pdpdeact" ++ [DQ] ++ lit ",1" ++ CRLF)
                                       (IOP_URC_STATEMSG_SZ sample_cfg)) (iop pdpdeact_sample))) pdpdeact_sample)
       else Fault "IOP-URC state msg buffer overflow.".
Proof.
  eexists. split; [vm_compute; reflexivity|].
  eapply (rxParseExtended_state_urc sample_cfg (fun s => s) 2 pdpdeact_sample _ CR LF).
  - vm_compute. reflexivity.
  - vm_compute. reflexivity.
  - vm_compute. reflexivity.
Defined.

(** "APP RDY" marks the modem application-ready and releases the block;
    once the modem is ready, a repeated "APP RDY" is not recognised and is
    queued as a command response instead. *)
Theorem rxParseExtended_app_ready cfg yh k s b x y rest :
  nth_error (rxCtrlBlks (iop s)) k = Some b ->
  primBuf b = x :: y :: lit "APP RDY" ++ CRLF ++ rest ->
  rxParseExtended cfg yh k s
  = Ok (tt, if qbgReadyState s =? qbg_readyState_appReady cfg
            then set_iop (upd_blks (fun l => list_upd l k (set_process (iopProcess_command cfg)))
                            (set_cmdHead k (iop s))) s
            else set_iop (upd_blks (fun l => list_upd l k (set_process (iopProcess_void cfg))) (iop s))
                   (set_qbgReadyState (qbg_readyState_appReady cfg) s)).
Proof.
  intros Hb Hp. unfold rxParseExtended, bind at 1, get_blk. rewrite Hb. cbv beta iota.
  assert (E1 : (memcmp QIURC_RECV (skipn 2 (primBuf b)) 13 =? 0)%Z = false) by (rewrite Hp; reflexivity).
  assert (E2 : (memcmp QSSLURC_RECV (skipn 2 (primBuf b)) 15 =? 0)%Z = false) by (rewrite Hp; reflexivity).
  assert (E3 : (memcmp (lit "+QIURC: ") (skipn 2 (primBuf b)) 8 =? 0)%Z = false) by (rewrite Hp; reflexivity).
  assert (E4 : (memcmp (lit "APP RDY" ++ CRLF) (skipn 2 (primBuf b)) 9 =? 0)%Z = true) by (rewrite Hp; reflexivity).
  rewrite E1, E2, E3, E4. unfold bind at 1, get. cbv beta iota.
  destruct (qbgReadyState s =? qbg_readyState_appReady cfg); reflexivity.
Qed.

(** A state where control block 2 holds the modem's "APP RDY". *)
Definition app_rdy_sample : ltem1 :=
  set_iop (upd_blks (fun l => list_upd l 2 (set_primBuf (CRLF ++ lit "APP RDY" ++ CRLF)))
             (iop (sample_state sample_cfg)))
          (sample_state sample_cfg).

Lemma rxParseExtended_app_ready_witness :
  exists b, nth_error (rxCtrlBlks (iop app_rdy_sample)) 2 = Some b
  /\ rxParseExtended sample_cfg (fun s => s) 2 app_rdy_sample
     = Ok (tt, if qbgReadyState app_rdy_sample =? qbg_readyState_appReady sample_cfg
               then set_iop (upd_blks (fun l => list_upd l 2 (set_process (iopProcess_command sample_cfg)))
                               (set_cmdHead 2 (iop app_rdy_sample))) app_rdy_sample
               else set_iop (upd_blks (fun l => list_upd l 2 (set_process (iopProcess_void sample_cfg)))
                               (iop app_rdy_sample))
                      (set_qbgReadyState (qbg_readyState_appReady sample_cfg) app_rdy_sample)).
Proof.
  eexists. split; [vm_compute; reflexivity|].
  eapply (rxParseExtended_app_ready sample_cfg (fun s => s) 2 app_rdy_sample _ CR LF []).
  - vm_compute. reflexivity.
  - vm_compute. reflexivity.
Defined.

Lemma nth_error_list_upd_same {A} (l : list A) : forall k f,
  nth_error (list_upd l k f) k = option_map f (nth_error l k).
Proof. induction l as [|x l IH]; intros [|k] f; simpl; auto. Qed.

(** Reduce record projections of known records. *)
Ltac proj := cbn [iop action qbgReadyState hasData millis respMem hwTxEmpty wire
                   rxCtrlBlks rxHead rxTail cmdHead cmdTail socketHead socketTail protoDataMode
                   protoDataBytes protoDataRxCtrlBlk protoDataSocket protoDataEOTPhrase protoDataEOTSz
                   urcStateMsg txBuf process primBuf primDataSz primBufData dataReady extsnBuf rmtHostInData].

(** Symbolic evaluation of a run: look blocks up through updates and
    settle the tests whose outcome is a hypothesis. *)
Ltac run :=
  repeat first
    [ rewrite nth_error_list_upd_same | rewrite Bool.andb_false_r
    | match goal with
      | H : nth_error _ _ = Some _ |- _ => rewrite H
      | H : Nat.eqb _ _ = _ |- _ => rewrite H
      | H : Nat.ltb _ _ = _ |- _ => rewrite H
      | H : action _ = Some _ |- _ => rewrite H
      | H : extsnBuf _ = _ |- _ => rewrite H
      | H : Z.eqb _ _ = _ |- _ => rewrite H
      end
    | progress (cbn [option_map orb]; cbv beta iota; proj) ].




(** An empty data reply ("+QIRD: 0", the modem's end-of-data signal)
    ends the read: the protocol-data mode returns to idle, the socket
    being read is cleared and the block is released. The reply is not
    passed on to [rxParseExtended], so it is never queued as a command
    response. *)
Theorem rxParseImmediate_ird_empty_ends_read cfg yh k s a b x y rest :
  action s = Some a ->
  nth_error (rxCtrlBlks (iop s)) k = Some b ->
  primBuf b = x :: y :: lit "+QIRD: 0" ++ rest ->
  nondigit_head rest ->
  exists s', rxParseImmediate cfg yh k s = Ok (tt, s')
    /\ cmdHead (iop s') = cmdHead (iop s)
    /\ protoDataMode (iop s') = iopProtoDataMode_idle
    /\ protoDataSocket (iop s') = iopProcess_void cfg
    /\ exists b', nth_error (rxCtrlBlks (iop s')) k = Some b' /\ process b' = iopProcess_void cfg.
Proof.
  intros Ha Hb Hp Hr.
  assert (Hv' : fst (strtol (primBuf b) 9) = 0%Z).
  { rewrite (strtol_digits (primBuf b) 9 0 (lit "0") rest); [reflexivity | | discriminate | exact Hr |].
    - constructor; [reflexivity | constructor].
    - rewrite Hp. reflexivity. }
  destruct (strtol (primBuf b) 9) as [v endp] eqn:Es. simpl in Hv'. subst v.
  assert (Hn : (Z.to_nat (to_u16 0) =? 0) = true) by reflexivity.
  assert (E0 : (strncmp (lit "+QIRD: ") (skipn 2 (primBuf b)) IRDRECV_HDRSZ =? 0)%Z = true)
    by (rewrite Hp; reflexivity).
  assert (EI : at_ (primBuf b) 4 = "I"%char) by (rewrite Hp; reflexivity).
  destruct (IOP_RXCTRLBLK_PRIMBUF_IRDCAP cfg <? Z.to_nat (to_u16 0)) eqn:Ecap; eexists; split.
  all: try (cbv [rxParseImmediate rxParseIrdHeader rxConfigureIrdBuffer bind ret get modify
         modify_iop modify_blk get_blk get_action put_action
         set_action set_iop upd_blks set_protoDataMode set_protoDataSocket
         set_process set_primBufData set_primDataSz set_extsnBuf];
    run; rewrite EI; change (Ascii.eqb "I" "I") with true; cbv beta iota;
    change (IRDRECV_HDRSZ + 2) with 9; rewrite Es; run; reflexivity).
  all: proj; split; [reflexivity|]; split; [reflexivity|]; split; [reflexivity|];
    rewrite !nth_error_list_upd_same, Hb; eexists; split; reflexivity.
Qed.

(** A state where control block 2 holds the modem's empty data reply. *)
Definition ird0_sample : ltem1 :=
  set_iop (upd_blks (fun l => list_upd l 2 (set_primBuf (CRLF ++ lit "+QIRD: 0" ++ CRLF ++ CRLF ++ lit "OK" ++ CRLF)))
             (iop (sample_state sample_cfg)))
          (sample_state sample_cfg).

Lemma rxParseImmediate_ird_empty_ends_read_witness :
  exists s', rxParseImmediate sample_cfg (fun s => s) 2 ird0_sample = Ok (tt, s')
    /\ cmdHead (iop s') = cmdHead (iop ird0_sample)
    /\ protoDataMode (iop s') = iopProtoDataMode_idle
    /\ protoDataSocket (iop s') = iopProcess_void sample_cfg
    /\ exists b', nth_error (rxCtrlBlks (iop s')) 2 = Some b' /\ process b' = iopProcess_void sample_cfg.
Proof.
  eapply (rxParseImmediate_ird_empty_ends_read sample_cfg (fun s => s) 2 ird0_sample _ _ CR LF
            (CRLF ++ CRLF ++ lit "OK" ++ CRLF)).
  - reflexivity.
  - reflexivity.
  - reflexivity.
  - reflexivity.
Defined.
